(** * DeployPodToKube: the deployment form of Podman Desktop

    A shallow embedding of the script part of
    [packages/renderer/src/lib/pod/DeployPodToKube.svelte]: the manifest
    model, the planning of Services, Routes and the Ingress, the
    in-place sanitization of the manifest, the sequence of creation calls
    through the [window] bridge, the label synchronisation and the
    status poller.

    Conventions.
    - A JavaScript number that the component handles is a port number:
      it is an integer [Z]. An optional property is an [option].
    - The manifest is a mutable object: it lives in a store ([heap]) and
      the component variables [bodyPod] and [previousPod] hold references
      to it. A mutation in place is an update of the store cell.
    - The [window] bridge is an interface ([Window]); every call goes
      through [perform], which appends the call and whether it failed to
      the [log] of the state.
    - An [async] handler is run to completion in one step: the reply of
      the bridge to an awaited call is supplied by the world inside the
      step. *)

From stdpp Require Import gmap strings list pretty.

Open Scope string_scope.
Open Scope list_scope.
Open Scope Z_scope.

(** ** JavaScript values used by the component *)

Module Js.

(** [if (s)] on an optional string: absent and the empty string are falsy. *)
Definition truthy_string (s : option string) : bool :=
  match s with
  | Some s => negb (String.eqb s "")
  | None => false
  end.

(** [if (n)] on an optional number: absent and zero are falsy. *)
Definition truthy_number (n : option Z) : bool :=
  match n with
  | Some n => negb (n =? 0)
  | None => false
  end.

(** Interpolation of an optional string in a template literal. *)
Definition template_string (s : option string) : string :=
  default "undefined" s.

(** Interpolation of an optional number in a template literal. *)
Definition template_number (n : option Z) : string :=
  from_option pretty "undefined" n.

(** The nullish coalescing operator [a ?? d]. *)
Definition nullish {A} (a : option A) (d : A) : A := default d a.

(** A value that is either text or a [Date] (milliseconds since the epoch). *)
Inductive time :=
| Text (s : string)
| Date (ms : Z).

(** A property value of a telemetry event. *)
Inductive value :=
| Bool (b : bool)
| Str (s : string).

Definition truthy_time (t : option time) : bool :=
  match t with
  | Some (Text s) => negb (String.eqb s "")
  | Some (Date _) => true
  | None => false
  end.

End Js.

(** ** The Kubernetes objects of the manifest *)

Module V1ContainerPort.
Record t := mk {
  containerPort : Z;
  hostPort : option Z;
  protocol : option string;
}.
End V1ContainerPort.

Module V1VolumeMount.
Record t := mk {
  name : string;
  mountPath : string;
}.
End V1VolumeMount.

Module V1Volume.
Record t := mk {
  name : string;
  hostPath : option string;
}.
End V1Volume.

Module V1Container.
Record t := mk {
  name : string;
  image : option string;
  imagePullPolicy : option string;
  ports : option (list V1ContainerPort.t);
  volumeMounts : option (list V1VolumeMount.t);
}.
End V1Container.

Module V1PodSpec.
Record t := mk {
  containers : list V1Container.t;
  volumes : option (list V1Volume.t);
}.
End V1PodSpec.

Module V1ObjectMeta.
Record t := mk {
  name : option string;
  namespace : option string;
  labels : option (gmap string string);
  creationTimestamp : option Js.time;
}.
End V1ObjectMeta.

Module V1PodStatus.
Record t := mk {
  phase : option string;
}.
End V1PodStatus.

Module V1Pod.
Record t := mk {
  metadata : option V1ObjectMeta.t;
  spec : option V1PodSpec.t;
  status : option V1PodStatus.t;
}.

(** [pod.metadata?.name] *)
Definition name (pod : t) : option string :=
  m ← metadata pod; V1ObjectMeta.name m.

(** [pod.metadata?.namespace] *)
Definition namespace (pod : t) : option string :=
  m ← metadata pod; V1ObjectMeta.namespace m.

(** [pod.spec?.volumes] *)
Definition volumes (pod : t) : option (list V1Volume.t) :=
  s ← spec pod; V1PodSpec.volumes s.

(** [pod.status?.phase] *)
Definition phase (pod : t) : option string :=
  s ← status pod; V1PodStatus.phase s.

(** [pod.spec?.containers], no container when there is no spec. *)
Definition containers (pod : t) : list V1Container.t :=
  from_option V1PodSpec.containers [] (spec pod).

(** Every port entry of every container, in iteration order. *)
Definition portEntries (pod : t) : list V1ContainerPort.t :=
  c ← containers pod; default [] (V1Container.ports c).
End V1Pod.

(** ** The objects the component builds *)

Module ServicePort.
Record t := mk {
  name : string;
  port : Z;
  protocol : string;
  targetPort : Z;
}.
End ServicePort.

Module V1Service.
Record t := mk {
  apiVersion : string;
  kind : string;
  name : string;                   (* metadata.name *)
  namespace : string;              (* metadata.namespace *)
  ports : list ServicePort.t;      (* spec.ports *)
  selector_app : option string;    (* spec.selector.app *)
}.
End V1Service.

Module V1Route.
Record t := mk {
  apiVersion : string;
  kind : string;
  name : string;                   (* metadata.name *)
  namespace : string;              (* metadata.namespace *)
  host : option string;            (* spec.host, set by the cluster *)
  targetPort : Z;                  (* spec.port.targetPort *)
  to_kind : string;                (* spec.to.kind *)
  to_name : string;                (* spec.to.name *)
  tls_termination : string;        (* spec.tls.termination *)
}.
End V1Route.

Module V1Ingress.
Record t := mk {
  apiVersion : string;
  kind : string;
  name : option string;            (* metadata.name *)
  namespace : string;              (* metadata.namespace *)
  backend_name : string;           (* spec.defaultBackend.service.name *)
  backend_port : Z;                (* spec.defaultBackend.service.port.number *)
}.
End V1Ingress.

(** ** The variables of the component

    A reference to a manifest in the store is a [loc]; [bodyPod] is
    [undefined] until [onMount] has parsed the generated manifest. A timer
    handle is a number. *)

Definition loc := nat.

Record Component := mkComponent {
  currentNamespace : string;
  deployStarted : bool;
  deployFinished : bool;
  deployError : string;
  deployWarning : string;
  updatePodInterval : option nat;
  openshiftRouteGroupSupported : bool;
  deployUsingServices : bool;
  deployUsingRoutes : bool;
  deployUsingRestrictedSecurityContext : bool;
  createdPod : option V1Pod.t;
  bodyPod : option loc;
  createIngress : bool;
  ingressPort : option Z;
  containerPortArray : list (option Z);
  createdRoutes : list V1Route.t;
}.

(** Assignments to the variables. *)

Definition set_currentNamespace (v : string) (c : Component) : Component :=
  {| currentNamespace := v; deployStarted := deployStarted c;
     deployFinished := deployFinished c; deployError := deployError c;
     deployWarning := deployWarning c;
     updatePodInterval := updatePodInterval c;
     openshiftRouteGroupSupported := openshiftRouteGroupSupported c;
     deployUsingServices := deployUsingServices c;
     deployUsingRoutes := deployUsingRoutes c;
     deployUsingRestrictedSecurityContext := deployUsingRestrictedSecurityContext c;
     createdPod := createdPod c; bodyPod := bodyPod c;
     createIngress := createIngress c; ingressPort := ingressPort c;
     containerPortArray := containerPortArray c;
     createdRoutes := createdRoutes c |}.

Definition set_deployStarted (v : bool) (c : Component) : Component :=
  {| currentNamespace := currentNamespace c; deployStarted := v;
     deployFinished := deployFinished c; deployError := deployError c;
     deployWarning := deployWarning c;
     updatePodInterval := updatePodInterval c;
     openshiftRouteGroupSupported := openshiftRouteGroupSupported c;
     deployUsingServices := deployUsingServices c;
     deployUsingRoutes := deployUsingRoutes c;
     deployUsingRestrictedSecurityContext := deployUsingRestrictedSecurityContext c;
     createdPod := createdPod c; bodyPod := bodyPod c;
     createIngress := createIngress c; ingressPort := ingressPort c;
     containerPortArray := containerPortArray c;
     createdRoutes := createdRoutes c |}.

Definition set_deployFinished (v : bool) (c : Component) : Component :=
  {| currentNamespace := currentNamespace c;
     deployStarted := deployStarted c; deployFinished := v;
     deployError := deployError c; deployWarning := deployWarning c;
     updatePodInterval := updatePodInterval c;
     openshiftRouteGroupSupported := openshiftRouteGroupSupported c;
     deployUsingServices := deployUsingServices c;
     deployUsingRoutes := deployUsingRoutes c;
     deployUsingRestrictedSecurityContext := deployUsingRestrictedSecurityContext c;
     createdPod := createdPod c; bodyPod := bodyPod c;
     createIngress := createIngress c; ingressPort := ingressPort c;
     containerPortArray := containerPortArray c;
     createdRoutes := createdRoutes c |}.

Definition set_deployError (v : string) (c : Component) : Component :=
  {| currentNamespace := currentNamespace c;
     deployStarted := deployStarted c; deployFinished := deployFinished c;
     deployError := v; deployWarning := deployWarning c;
     updatePodInterval := updatePodInterval c;
     openshiftRouteGroupSupported := openshiftRouteGroupSupported c;
     deployUsingServices := deployUsingServices c;
     deployUsingRoutes := deployUsingRoutes c;
     deployUsingRestrictedSecurityContext := deployUsingRestrictedSecurityContext c;
     createdPod := createdPod c; bodyPod := bodyPod c;
     createIngress := createIngress c; ingressPort := ingressPort c;
     containerPortArray := containerPortArray c;
     createdRoutes := createdRoutes c |}.

Definition set_deployWarning (v : string) (c : Component) : Component :=
  {| currentNamespace := currentNamespace c;
     deployStarted := deployStarted c; deployFinished := deployFinished c;
     deployError := deployError c; deployWarning := v;
     updatePodInterval := updatePodInterval c;
     openshiftRouteGroupSupported := openshiftRouteGroupSupported c;
     deployUsingServices := deployUsingServices c;
     deployUsingRoutes := deployUsingRoutes c;
     deployUsingRestrictedSecurityContext := deployUsingRestrictedSecurityContext c;
     createdPod := createdPod c; bodyPod := bodyPod c;
     createIngress := createIngress c; ingressPort := ingressPort c;
     containerPortArray := containerPortArray c;
     createdRoutes := createdRoutes c |}.

Definition set_updatePodInterval (v : option nat) (c : Component) : Component :=
  {| currentNamespace := currentNamespace c;
     deployStarted := deployStarted c; deployFinished := deployFinished c;
     deployError := deployError c; deployWarning := deployWarning c;
     updatePodInterval := v;
     openshiftRouteGroupSupported := openshiftRouteGroupSupported c;
     deployUsingServices := deployUsingServices c;
     deployUsingRoutes := deployUsingRoutes c;
     deployUsingRestrictedSecurityContext := deployUsingRestrictedSecurityContext c;
     createdPod := createdPod c; bodyPod := bodyPod c;
     createIngress := createIngress c; ingressPort := ingressPort c;
     containerPortArray := containerPortArray c;
     createdRoutes := createdRoutes c |}.

Definition set_openshiftRouteGroupSupported (v : bool) (c : Component) : Component :=
  {| currentNamespace := currentNamespace c;
     deployStarted := deployStarted c; deployFinished := deployFinished c;
     deployError := deployError c; deployWarning := deployWarning c;
     updatePodInterval := updatePodInterval c;
     openshiftRouteGroupSupported := v;
     deployUsingServices := deployUsingServices c;
     deployUsingRoutes := deployUsingRoutes c;
     deployUsingRestrictedSecurityContext := deployUsingRestrictedSecurityContext c;
     createdPod := createdPod c; bodyPod := bodyPod c;
     createIngress := createIngress c; ingressPort := ingressPort c;
     containerPortArray := containerPortArray c;
     createdRoutes := createdRoutes c |}.

Definition set_deployUsingServices (v : bool) (c : Component) : Component :=
  {| currentNamespace := currentNamespace c;
     deployStarted := deployStarted c; deployFinished := deployFinished c;
     deployError := deployError c; deployWarning := deployWarning c;
     updatePodInterval := updatePodInterval c;
     openshiftRouteGroupSupported := openshiftRouteGroupSupported c;
     deployUsingServices := v; deployUsingRoutes := deployUsingRoutes c;
     deployUsingRestrictedSecurityContext := deployUsingRestrictedSecurityContext c;
     createdPod := createdPod c; bodyPod := bodyPod c;
     createIngress := createIngress c; ingressPort := ingressPort c;
     containerPortArray := containerPortArray c;
     createdRoutes := createdRoutes c |}.

Definition set_deployUsingRoutes (v : bool) (c : Component) : Component :=
  {| currentNamespace := currentNamespace c;
     deployStarted := deployStarted c; deployFinished := deployFinished c;
     deployError := deployError c; deployWarning := deployWarning c;
     updatePodInterval := updatePodInterval c;
     openshiftRouteGroupSupported := openshiftRouteGroupSupported c;
     deployUsingServices := deployUsingServices c; deployUsingRoutes := v;
     deployUsingRestrictedSecurityContext := deployUsingRestrictedSecurityContext c;
     createdPod := createdPod c; bodyPod := bodyPod c;
     createIngress := createIngress c; ingressPort := ingressPort c;
     containerPortArray := containerPortArray c;
     createdRoutes := createdRoutes c |}.

Definition set_deployUsingRestrictedSecurityContext (v : bool) (c : Component) : Component :=
  {| currentNamespace := currentNamespace c;
     deployStarted := deployStarted c; deployFinished := deployFinished c;
     deployError := deployError c; deployWarning := deployWarning c;
     updatePodInterval := updatePodInterval c;
     openshiftRouteGroupSupported := openshiftRouteGroupSupported c;
     deployUsingServices := deployUsingServices c;
     deployUsingRoutes := deployUsingRoutes c;
     deployUsingRestrictedSecurityContext := v; createdPod := createdPod c;
     bodyPod := bodyPod c; createIngress := createIngress c;
     ingressPort := ingressPort c;
     containerPortArray := containerPortArray c;
     createdRoutes := createdRoutes c |}.

Definition set_createdPod (v : option V1Pod.t) (c : Component) : Component :=
  {| currentNamespace := currentNamespace c;
     deployStarted := deployStarted c; deployFinished := deployFinished c;
     deployError := deployError c; deployWarning := deployWarning c;
     updatePodInterval := updatePodInterval c;
     openshiftRouteGroupSupported := openshiftRouteGroupSupported c;
     deployUsingServices := deployUsingServices c;
     deployUsingRoutes := deployUsingRoutes c;
     deployUsingRestrictedSecurityContext := deployUsingRestrictedSecurityContext c;
     createdPod := v; bodyPod := bodyPod c; createIngress := createIngress c;
     ingressPort := ingressPort c;
     containerPortArray := containerPortArray c;
     createdRoutes := createdRoutes c |}.

Definition set_bodyPod (v : option loc) (c : Component) : Component :=
  {| currentNamespace := currentNamespace c;
     deployStarted := deployStarted c; deployFinished := deployFinished c;
     deployError := deployError c; deployWarning := deployWarning c;
     updatePodInterval := updatePodInterval c;
     openshiftRouteGroupSupported := openshiftRouteGroupSupported c;
     deployUsingServices := deployUsingServices c;
     deployUsingRoutes := deployUsingRoutes c;
     deployUsingRestrictedSecurityContext := deployUsingRestrictedSecurityContext c;
     createdPod := createdPod c; bodyPod := v;
     createIngress := createIngress c; ingressPort := ingressPort c;
     containerPortArray := containerPortArray c;
     createdRoutes := createdRoutes c |}.

Definition set_createIngress (v : bool) (c : Component) : Component :=
  {| currentNamespace := currentNamespace c;
     deployStarted := deployStarted c; deployFinished := deployFinished c;
     deployError := deployError c; deployWarning := deployWarning c;
     updatePodInterval := updatePodInterval c;
     openshiftRouteGroupSupported := openshiftRouteGroupSupported c;
     deployUsingServices := deployUsingServices c;
     deployUsingRoutes := deployUsingRoutes c;
     deployUsingRestrictedSecurityContext := deployUsingRestrictedSecurityContext c;
     createdPod := createdPod c; bodyPod := bodyPod c; createIngress := v;
     ingressPort := ingressPort c;
     containerPortArray := containerPortArray c;
     createdRoutes := createdRoutes c |}.

Definition set_ingressPort (v : option Z) (c : Component) : Component :=
  {| currentNamespace := currentNamespace c;
     deployStarted := deployStarted c; deployFinished := deployFinished c;
     deployError := deployError c; deployWarning := deployWarning c;
     updatePodInterval := updatePodInterval c;
     openshiftRouteGroupSupported := openshiftRouteGroupSupported c;
     deployUsingServices := deployUsingServices c;
     deployUsingRoutes := deployUsingRoutes c;
     deployUsingRestrictedSecurityContext := deployUsingRestrictedSecurityContext c;
     createdPod := createdPod c; bodyPod := bodyPod c;
     createIngress := createIngress c; ingressPort := v;
     containerPortArray := containerPortArray c;
     createdRoutes := createdRoutes c |}.

Definition set_containerPortArray (v : list (option Z)) (c : Component) : Component :=
  {| currentNamespace := currentNamespace c;
     deployStarted := deployStarted c; deployFinished := deployFinished c;
     deployError := deployError c; deployWarning := deployWarning c;
     updatePodInterval := updatePodInterval c;
     openshiftRouteGroupSupported := openshiftRouteGroupSupported c;
     deployUsingServices := deployUsingServices c;
     deployUsingRoutes := deployUsingRoutes c;
     deployUsingRestrictedSecurityContext := deployUsingRestrictedSecurityContext c;
     createdPod := createdPod c; bodyPod := bodyPod c;
     createIngress := createIngress c; ingressPort := ingressPort c;
     containerPortArray := v; createdRoutes := createdRoutes c |}.

Definition set_createdRoutes (v : list V1Route.t) (c : Component) : Component :=
  {| currentNamespace := currentNamespace c;
     deployStarted := deployStarted c; deployFinished := deployFinished c;
     deployError := deployError c; deployWarning := deployWarning c;
     updatePodInterval := updatePodInterval c;
     openshiftRouteGroupSupported := openshiftRouteGroupSupported c;
     deployUsingServices := deployUsingServices c;
     deployUsingRoutes := deployUsingRoutes c;
     deployUsingRestrictedSecurityContext := deployUsingRestrictedSecurityContext c;
     createdPod := createdPod c; bodyPod := bodyPod c;
     createIngress := createIngress c; ingressPort := ingressPort c;
     containerPortArray := containerPortArray c; createdRoutes := v |}.

(** ** Planning: the Services, the Routes and the Ingress

    Lines 170 to 293 of [deployToKube], after the guard on the pod name. *)

(** What a handler does in the end: it returns, or it throws. *)
Inductive outcome (A : Type) :=
| Returned (a : A)
| Threw (e : string).
Arguments Returned {A} a.
Arguments Threw {A} e.

Definition succeeded {A} (r : outcome A) : bool :=
  match r with Returned _ => true | Threw _ => false end.

(** The error of reading a property of [undefined]. *)
Definition TypeError : string := "TypeError".

Section Planning.

Variable c : Component.
Variable pod : V1Pod.t.

(** [`${bodyPod.metadata?.name}-${port.hostPort}`] *)
Definition portName (port : V1ContainerPort.t) : string :=
  Js.template_string (V1Pod.name pod) +:+ "-" +:+
  Js.template_number (V1ContainerPort.hostPort port).

(** The Service of a port whose [hostPort] is [h]. *)
Definition newService (port : V1ContainerPort.t) (h : Z) : V1Service.t :=
  {| V1Service.apiVersion := "v1";
     V1Service.kind := "Service";
     V1Service.name := portName port;
     V1Service.namespace := currentNamespace c;
     V1Service.ports :=
       [ {| ServicePort.name := portName port;
            ServicePort.port := h;
            ServicePort.protocol :=
              Js.nullish (V1ContainerPort.protocol port) "TCP";
            ServicePort.targetPort := V1ContainerPort.containerPort port |} ];
     V1Service.selector_app := V1Pod.name pod |}.

(** The OpenShift Route of the same port. *)
Definition newRoute (port : V1ContainerPort.t) : V1Route.t :=
  {| V1Route.apiVersion := "route.openshift.io/v1";
     V1Route.kind := "Route";
     V1Route.name := portName port;
     V1Route.namespace := currentNamespace c;
     V1Route.host := None;
     V1Route.targetPort := V1ContainerPort.containerPort port;
     V1Route.to_kind := "Service";
     V1Route.to_name := portName port;
     V1Route.tls_termination := "edge" |}.

(** The body of the inner [forEach]: one port entry. *)
Definition planPort (acc : list V1Service.t * list V1Route.t)
    (port : V1ContainerPort.t) : list V1Service.t * list V1Route.t :=
  match V1ContainerPort.hostPort port with
  | Some h =>
      if h =? 0 then acc
      else
        (acc.1 ++ [newService port h],
         if openshiftRouteGroupSupported c && deployUsingRoutes c
         then acc.2 ++ [newRoute port]
         else acc.2)
  | None => acc
  end.

(** The body of the outer [forEach]: one container. *)
Definition planContainer (acc : list V1Service.t * list V1Route.t)
    (container : V1Container.t) : list V1Service.t * list V1Route.t :=
  match V1Container.ports container with
  | Some ports => foldl planPort acc ports
  | None => acc
  end.

(** [servicesToCreate] and [routesToCreate] after lines 178 to 237. *)
Definition planServices : list V1Service.t * list V1Route.t :=
  if deployUsingServices c
  then foldl planContainer ([], []) (V1Pod.containers pod)
  else ([], []).

(** [service.spec.ports[0].port]; reading it throws when there is no entry. *)
Definition port0 (service : V1Service.t) : option Z :=
  ServicePort.port <$> head (V1Service.ports service).

(** [servicesToCreate.find(service => service.spec.ports[0].port === p)] *)
Fixpoint findByPort (p : Z) (services : list V1Service.t)
    : outcome (option V1Service.t) :=
  match services with
  | [] => Returned None
  | service :: rest =>
      match port0 service with
      | Some q => if q =? p then Returned (Some service) else findByPort p rest
      | None => Threw TypeError
      end
  end.

Definition newIngress (serviceName : string) (servicePort : Z) : V1Ingress.t :=
  {| V1Ingress.apiVersion := "networking.k8s.io/v1";
     V1Ingress.kind := "Ingress";
     V1Ingress.name := V1Pod.name pod;
     V1Ingress.namespace := currentNamespace c;
     V1Ingress.backend_name := serviceName;
     V1Ingress.backend_port := servicePort |}.

(** How planning ends: with the ingresses to create, or with a message. *)
Inductive planned :=
| Proceed (ingressesToCreate : list V1Ingress.t)
| Warned (warning : string)
| Failed (error : string).

Definition noServiceWarning : string :=
  "In order to create an Ingress a Pod must have a Service associated to a port mapping. Check that your container(s) has a port exposed correctly in order to generate a Service.".

Definition noPortWarning : string :=
  "You need to specify a port to create an ingress.".

Definition noMatchError : string :=
  "Unable to find the service that matches the port you want to expose.".

(** [ingressesToCreate] after lines 240 to 293. *)
Definition planIngress (servicesToCreate : list V1Service.t) : outcome planned :=
  if createIngress c then
    match servicesToCreate with
    | [] => Returned (Warned noServiceWarning)
    | [service] =>
        match port0 service with
        | Some servicePort =>
            Returned (Proceed [newIngress (V1Service.name service) servicePort])
        | None => Threw TypeError
        end
    | _ =>
        match ingressPort c with
        | Some p =>
            if p =? 0 then Returned (Warned noPortWarning)
            else
              match findByPort p servicesToCreate with
              | Returned (Some matchingService) =>
                  match port0 matchingService with
                  | Some servicePort =>
                      Returned (Proceed
                        [newIngress (V1Service.name matchingService) servicePort])
                  | None => Threw TypeError
                  end
              | Returned None => Returned (Failed noMatchError)
              | Threw e => Threw e
              end
        | None => Returned (Warned noPortWarning)
        end
    end
  else Returned (Proceed []).

(** The three lists when planning is over (line 294), and how it ended. *)
Inductive verdict :=
| Submit
| Warn (warning : string)
| Fail (error : string)
| Skip.

Record Plan := mkPlan {
  servicesToCreate : list V1Service.t;
  routesToCreate : list V1Route.t;
  ingressesToCreate : list V1Ingress.t;
  ending : verdict;
}.

(** Lines 170 to 293: nothing is planned for a pod without a name. *)
Definition plan : outcome Plan :=
  if Js.truthy_string (V1Pod.name pod) then
    let '(services, routes) := planServices in
    match planIngress services with
    | Returned (Proceed ingresses) =>
        Returned (mkPlan services routes ingresses Submit)
    | Returned (Warned warning) =>
        Returned (mkPlan services routes [] (Warn warning))
    | Returned (Failed error) =>
        Returned (mkPlan services routes [] (Fail error))
    | Threw e => Threw e
    end
  else Returned (mkPlan [] [] [] Skip).

End Planning.

(** ** The bridge to the host process and the state of a run *)

(** A call through [window], with its arguments. *)
Inductive Call :=
| CreatePod (namespace : string) (pod : V1Pod.t)
| CreateService (namespace : string) (service : V1Service.t)
| CreateRoute (namespace : string) (route : V1Route.t)
| CreateIngress (namespace : string) (ingress : V1Ingress.t)
| ReadPod (name namespace : string)
| TelemetryTrack (event : string) (properties : list (string * Js.value)).

(** The calls that create a resource in the cluster. *)
Definition creates (call : Call) : bool :=
  match call with
  | CreatePod _ _ | CreateService _ _ | CreateRoute _ _ | CreateIngress _ _ => true
  | ReadPod _ _ | TelemetryTrack _ _ => false
  end.

(** The host process behind [window]: each call steps the world [W] and
    either returns or throws. *)
Class Window (W : Type) := {
  kubernetesCreatePod : string → V1Pod.t → W → W * outcome V1Pod.t;
  kubernetesCreateService : string → V1Service.t → W → W * outcome unit;
  openshiftCreateRoute : string → V1Route.t → W → W * outcome V1Route.t;
  kubernetesCreateIngress : string → V1Ingress.t → W → W * outcome unit;
  kubernetesReadNamespacedPod : string → string → W → W * outcome V1Pod.t;
  telemetryTrack : string → list (string * Js.value) → W → W * outcome unit;
}.

(** The variables, the store of manifests, the active interval timers
    (handle and period in milliseconds) with the next handle, the world,
    and the calls made so far, each with whether it returned. *)
Record State (W : Type) := mkState {
  vars : Component;
  heap : gmap loc V1Pod.t;
  timers : gmap nat Z;
  timerSeq : nat;
  world : W;
  log : list (Call * bool);
}.
Arguments mkState {W}.
Arguments vars {W}.
Arguments heap {W}.
Arguments timers {W}.
Arguments timerSeq {W}.
Arguments world {W}.
Arguments log {W}.

Definition set_vars {W} (v : Component) (s : State W) : State W :=
  mkState v (heap s) (timers s) (timerSeq s) (world s) (log s).
Definition set_heap {W} (v : gmap loc V1Pod.t) (s : State W) : State W :=
  mkState (vars s) v (timers s) (timerSeq s) (world s) (log s).
Definition set_timers {W} (v : gmap nat Z) (s : State W) : State W :=
  mkState (vars s) (heap s) v (timerSeq s) (world s) (log s).
Definition set_timerSeq {W} (v : nat) (s : State W) : State W :=
  mkState (vars s) (heap s) (timers s) v (world s) (log s).

(** A handler: it transforms the state and returns or throws. *)
Definition Exec (W A : Type) : Type := State W → State W * outcome A.

Definition ret {W A} (a : A) : Exec W A := λ s, (s, Returned a).

Definition throw {W A} (e : string) : Exec W A := λ s, (s, Threw e).

Global Instance Exec_bind {W} : MBind (Exec W) := λ A B k m s,
  match m s with
  | (s', Returned a) => k a s'
  | (s', Threw e) => (s', Threw e)
  end.

(** [try { m } catch (error) { handler }] *)
Definition tryCatch {W A} (m : Exec W A) (handler : string → Exec W A) : Exec W A :=
  λ s, match m s with
       | (s', Returned a) => (s', Returned a)
       | (s', Threw e) => handler e s'
       end.

(** [for (const x of xs) { body }] *)
Fixpoint forOf {W A} (xs : list A) (body : A → Exec W unit) : Exec W unit :=
  match xs with
  | [] => ret tt
  | x :: rest => body x;; forOf rest body
  end.

(** Reading the variables, and an assignment to them. *)
Definition withVars {W A} (k : Component → Exec W A) : Exec W A :=
  λ s, k (vars s) s.

Definition assign {W} (f : Component → Component) : Exec W unit :=
  λ s, (set_vars (f (vars s)) s, Returned tt).

(** Reading the object a reference points to; [undefined] has no property. *)
Definition deref {W} (r : option loc) : Exec W V1Pod.t :=
  λ s, match r ≫= (λ l, heap s !! l) with
       | Some pod => (s, Returned pod)
       | None => (s, Threw TypeError)
       end.

(** A mutation in place of the object at [l]. *)
Definition mutate {W} (l : loc) (f : V1Pod.t → V1Pod.t) : Exec W unit :=
  λ s, (set_heap (alter f l (heap s)) s, Returned tt).

(** A new object in the store. *)
Definition alloc {W} (pod : V1Pod.t) : Exec W loc :=
  λ s, let l := fresh (dom (heap s)) in
       (set_heap (<[l := pod]> (heap s)) s, Returned l).

(** [setInterval(callback, ms)]: a new handle. *)
Definition setInterval {W} (ms : Z) : Exec W nat :=
  λ s, let h := timerSeq s in
       (set_timerSeq (S h) (set_timers (<[h := ms]> (timers s)) s), Returned h).

(** [clearInterval(handle)]; nothing to clear for [undefined]. *)
Definition clearInterval {W} (handle : option nat) : Exec W unit :=
  λ s, match handle with
       | Some h => (set_timers (delete h (timers s)) s, Returned tt)
       | None => (s, Returned tt)
       end.

(** An awaited call through the bridge, logged with its success. *)
Definition perform {W A} (call : Call) (f : W → W * outcome A) : Exec W A :=
  λ s, let '(w, r) := f (world s) in
       (mkState (vars s) (heap s) (timers s) (timerSeq s) w
                (log s ++ [(call, succeeded r)]), r).

(** ** The handlers of the component *)

(** Lines 315 to 317: [delete bodyPod.spec.volumes]. *)
Definition deleteVolumes (pod : V1Pod.t) : V1Pod.t :=
  match V1Pod.spec pod with
  | Some spec =>
      match V1PodSpec.volumes spec with
      | Some _ =>
          V1Pod.mk (V1Pod.metadata pod)
            (Some (V1PodSpec.mk (V1PodSpec.containers spec) None))
            (V1Pod.status pod)
      | None => pod
      end
  | None => pod
  end.

(** Line 333: [delete port.hostPort]. *)
Definition deleteHostPort (port : V1ContainerPort.t) : V1ContainerPort.t :=
  V1ContainerPort.mk (V1ContainerPort.containerPort port) None
    (V1ContainerPort.protocol port).

(** Lines 321 to 336, one container: [delete container.volumeMounts] and
    the loop over its ports. *)
Definition deleteHostSettings (container : V1Container.t) : V1Container.t :=
  V1Container.mk (V1Container.name container) (V1Container.image container)
    (V1Container.imagePullPolicy container)
    ((λ ports : list V1ContainerPort.t, deleteHostPort <$> ports)
       <$> V1Container.ports container)
    None.

(** [bodyPod.spec?.containers?.forEach(f)] with [f] mutating the container. *)
Definition forEachContainer (f : V1Container.t → V1Container.t)
    (pod : V1Pod.t) : V1Pod.t :=
  V1Pod.mk (V1Pod.metadata pod)
    ((λ spec, V1PodSpec.mk (f <$> V1PodSpec.containers spec)
                (V1PodSpec.volumes spec)) <$> V1Pod.spec pod)
    (V1Pod.status pod).

(** Lines 315 to 337: the removal of volumes, volume mounts and host ports. *)
Definition removeHostFields (c : Component) (pod : V1Pod.t) : V1Pod.t :=
  let pod := deleteVolumes pod in
  if deployUsingServices c then forEachContainer deleteHostSettings pod else pod.

(** [new Date(t)]: a date is copied, a text is parsed by [parse]. *)
Definition newDate (parse : string → Z) (t : Js.time) : Js.time :=
  match t with
  | Js.Text s => Js.Date (parse s)
  | Js.Date ms => Js.Date ms
  end.

(** Lines 296 to 298: the creation timestamp becomes a [Date]. *)
Definition dateCreationTimestamp (parse : string → Z) (pod : V1Pod.t) : V1Pod.t :=
  match V1Pod.metadata pod with
  | Some metadata =>
      if Js.truthy_time (V1ObjectMeta.creationTimestamp metadata) then
        V1Pod.mk
          (Some (V1ObjectMeta.mk (V1ObjectMeta.name metadata)
                   (V1ObjectMeta.namespace metadata)
                   (V1ObjectMeta.labels metadata)
                   (newDate parse <$> V1ObjectMeta.creationTimestamp metadata)))
          (V1Pod.spec pod) (V1Pod.status pod)
      else pod
  | None => pod
  end.

(** Lines 385 to 389, the reactive block:
    [bodyPod.metadata.labels.app = bodyPod.metadata.name ?? ''] when the
    labels exist. *)
Definition syncLabels (pod : V1Pod.t) : V1Pod.t :=
  match V1Pod.metadata pod with
  | Some metadata =>
      match V1ObjectMeta.labels metadata with
      | Some labels =>
          V1Pod.mk
            (Some (V1ObjectMeta.mk (V1ObjectMeta.name metadata)
                     (V1ObjectMeta.namespace metadata)
                     (Some (<["app" := Js.nullish (V1ObjectMeta.name metadata) ""]>
                              labels))
                     (V1ObjectMeta.creationTimestamp metadata)))
            (V1Pod.spec pod) (V1Pod.status pod)
      | None => pod
      end
  | None => pod
  end.

(** The binding of the Pod Name input: [bodyPod.metadata.name = value]. *)
Definition setName (value : string) (pod : V1Pod.t) : V1Pod.t :=
  match V1Pod.metadata pod with
  | Some metadata =>
      V1Pod.mk
        (Some (V1ObjectMeta.mk (Some value) (V1ObjectMeta.namespace metadata)
                 (V1ObjectMeta.labels metadata)
                 (V1ObjectMeta.creationTimestamp metadata)))
        (V1Pod.spec pod) (V1Pod.status pod)
  | None => pod
  end.

(** Line 105: [container.imagePullPolicy = 'IfNotPresent']. *)
Definition setPullPolicy (container : V1Container.t) : V1Container.t :=
  V1Container.mk (V1Container.name container) (V1Container.image container)
    (Some "IfNotPresent") (V1Container.ports container)
    (V1Container.volumeMounts container).

(** Lines 102 to 104: the host port of every port entry is pushed. *)
Definition pushPorts (array : list (option Z)) (container : V1Container.t)
    : list (option Z) :=
  foldl (λ array port, array ++ [V1ContainerPort.hostPort port]) array
        (default [] (V1Container.ports container)).

(** The properties of the telemetry event of a submission. *)
Definition eventProperties (c : Component) : list (string * Js.value) :=
  [("useServices", Js.Bool (deployUsingServices c));
   ("useRoutes", Js.Bool (deployUsingRoutes c));
   ("createIngress", Js.Bool (createIngress c))]
  ++ (if openshiftRouteGroupSupported c then [("isOpenshift", Js.Bool true)] else []).

Section Handlers.

Context {W : Type} {window : Window W}.

(** [ensureRestrictedSecurityContext] of [pod-utils] is not part of this
    file; the spec takes it as a function from manifest to manifest. *)
Variable ensureRestrictedSecurityContext : V1Pod.t → V1Pod.t.

(** The parser of [new Date(text)]. *)
Variable Date_parse : string → Z.

(** Lines 313 to 341: what the [try] block does to the manifest before
    the Pod is created. *)
Definition sanitize (c : Component) (pod : V1Pod.t) : V1Pod.t :=
  let pod := removeHostFields c pod in
  if deployUsingRestrictedSecurityContext c
  then ensureRestrictedSecurityContext pod
  else pod.

(** Lines 46 to 107, for the manifest [parsed] by [jsYaml.load]: the
    manifest is stored, the host ports are collected and the pull policy
    of every container is set. *)
Definition onMount (parsed : V1Pod.t) : Exec W unit :=
  l ← alloc parsed;
  assign (set_bodyPod (Some l));;
  pod ← deref (Some l);
  assign (λ c, set_containerPortArray
                 (foldl pushPorts (containerPortArray c) (V1Pod.containers pod)) c);;
  mutate l (forEachContainer setPullPolicy).

(** The reactive block, run when [bodyPod] has been invalidated. *)
Definition reactive : Exec W unit :=
  withVars (λ c,
    match bodyPod c with
    | Some l => mutate l syncLabels
    | None => ret tt
    end).

(** Lines 343 to 363: the calls of the [try] block, in sequence. *)
Definition createAll (l : loc) (p : Plan) (properties : list (string * Js.value))
    : Exec W unit :=
  pod ← deref (Some l);
  created ← withVars (λ c,
    perform (CreatePod (currentNamespace c) pod)
            (kubernetesCreatePod (currentNamespace c) pod));
  assign (set_createdPod (Some created));;
  forOf (servicesToCreate p) (λ service,
    withVars (λ c,
      perform (CreateService (currentNamespace c) service)
              (kubernetesCreateService (currentNamespace c) service)));;
  forOf (routesToCreate p) (λ route,
    createdRoute ← withVars (λ c,
      perform (CreateRoute (currentNamespace c) route)
              (openshiftCreateRoute (currentNamespace c) route));
    assign (λ c, set_createdRoutes (createdRoutes c ++ [createdRoute]) c));;
  forOf (ingressesToCreate p) (λ ingress,
    withVars (λ c,
      perform (CreateIngress (currentNamespace c) ingress)
              (kubernetesCreateIngress (currentNamespace c) ingress)));;
  perform (TelemetryTrack "deployToKube" properties)
          (telemetryTrack "deployToKube" properties).

(** Lines 365 to 368: the status poller is started. *)
Definition startPolling : Exec W unit :=
  handle ← setInterval 2000;
  assign (set_updatePodInterval (Some handle)).

(** Lines 371 to 378: the [catch] block. *)
Definition rollback (previousPod : option loc)
    (properties : list (string * Js.value)) (error : string) : Exec W unit :=
  assign (set_bodyPod previousPod);;
  perform (TelemetryTrack "deployToKube"
             (properties ++ [("errorMessage", Js.Str error)]))
          (telemetryTrack "deployToKube"
             (properties ++ [("errorMessage", Js.Str error)]));;
  assign (set_deployError error);;
  assign (set_deployStarted false);;
  assign (set_deployFinished false).

(** Lines 310 to 379: the snapshot, the [try] block and its [catch]. *)
Definition submit (l : loc) (p : Plan) (properties : list (string * Js.value))
    : Exec W unit :=
  let previousPod := Some l in
  tryCatch
    (withVars (λ c, mutate l (sanitize c));;
     createAll l p properties;;
     startPolling)
    (rollback previousPod properties).

(** Lines 160 to 168: the state of the previous attempt is reset. *)
Definition reset : Exec W unit :=
  assign (set_deployStarted true);;
  assign (set_deployFinished false);;
  assign (set_deployError "");;
  assign (set_deployWarning "");;
  assign (set_createdPod None);;
  withVars (λ c, clearInterval (updatePodInterval c));;
  assign (set_createdRoutes []).

(** Lines 159 to 381. *)
Definition deployToKube : Exec W unit :=
  reset;;
  withVars (λ c,
    pod ← deref (bodyPod c);
    match bodyPod c with
    | Some l =>
        match plan c pod with
        | Returned p =>
            match ending p with
            | Submit =>
                mutate l (dateCreationTimestamp Date_parse);;
                submit l p (eventProperties c)
            | Warn warning =>
                assign (set_deployWarning warning);;
                assign (set_deployStarted false)
            | Fail error =>
                assign (set_deployError error)
            | Skip => ret tt
            end
        | Threw e => throw e
        end
    | None => throw TypeError
    end).

(** Lines 117 to 132. *)
Definition updatePod : Exec W unit :=
  withVars (λ c,
    match createdPod c ≫= V1Pod.name, createdPod c ≫= V1Pod.namespace with
    | Some name, Some namespace =>
        if Js.truthy_string (Some name) && Js.truthy_string (Some namespace) then
          updatedPod ← perform (ReadPod name namespace)
                               (kubernetesReadNamespacedPod name namespace);
          assign (set_createdPod (Some updatedPod));;
          if bool_decide (V1Pod.phase updatedPod = Some "Running") then
            withVars (λ c, clearInterval (updatePodInterval c));;
            assign (set_deployFinished true);;
            withVars (λ c,
              perform (TelemetryTrack "deployToKube.running"
                         [("useServices", Js.Bool (deployUsingServices c));
                          ("useRoutes", Js.Bool (deployUsingRoutes c))])
                      (telemetryTrack "deployToKube.running"
                         [("useServices", Js.Bool (deployUsingServices c));
                          ("useRoutes", Js.Bool (deployUsingRoutes c))]))
          else ret tt
        else ret tt
    | _, _ => ret tt
    end).

(** Lines 366 to 368, the callback of the timer: a rejection of
    [updatePod] is only written to the console. *)
Definition poll : Exec W unit :=
  tryCatch updatePod (λ _, ret tt).

(** Lines 134 to 137. *)
Definition onDestroy : Exec W unit :=
  withVars (λ c, clearInterval (updatePodInterval c)).

End Handlers.

(** ** The component as a transition system *)

(** The manifest held by the form: the object [bodyPod] refers to. *)
Definition manifest {W} (s : State W) : option V1Pod.t :=
  bodyPod (vars s) ≫= (λ l, heap s !! l).

(** The state when the script has run its declarations (lines 21 to 44).
    The namespace and the support of routes are found by [onMount] through
    the bridge (lines 61 to 96); they are taken as given. *)
Definition initialState {W} (namespace : string) (routeGroupSupported : bool)
    (w : W) : State W :=
  {| vars :=
       {| currentNamespace := namespace; deployStarted := false;
          deployFinished := false; deployError := ""; deployWarning := "";
          updatePodInterval := None;
          openshiftRouteGroupSupported := routeGroupSupported;
          deployUsingServices := true; deployUsingRoutes := true;
          deployUsingRestrictedSecurityContext := false;
          createdPod := None; bodyPod := None; createIngress := false;
          ingressPort := None; containerPortArray := []; createdRoutes := [] |};
     heap := ∅; timers := ∅; timerSeq := 0%nat; world := w; log := [] |}.

(** What the user and the host can do to a mounted component. *)
Inductive Event :=
| ClickDeploy
| TimerFires (handle : nat)
| Destroyed
| InputPodName (value : string)
| CheckUseServices (checked : bool)
| CheckUseRestricted (checked : bool)
| CheckCreateIngress (checked : bool)
| SelectIngressPort (port : option Z)
| CheckUseRoutes (checked : bool)
| SelectNamespace (namespace : string).

(** Lines 398 to 644: when the template offers the control, and when a
    timer can fire. *)
Definition enabled {W} (e : Event) (s : State W) : bool :=
  match e with
  | ClickDeploy =>
      negb (deployStarted (vars s))
      && bool_decide (manifest s ≫= V1Pod.name ≠ Some "")
  | TimerFires handle => bool_decide (is_Some (timers s !! handle))
  | Destroyed => true
  | InputPodName _ => bool_decide (is_Some (manifest s ≫= V1Pod.metadata))
  | CheckUseServices _ => true
  | CheckUseRestricted _ => true
  | CheckCreateIngress _ =>
      negb (openshiftRouteGroupSupported (vars s)) && deployUsingServices (vars s)
  | SelectIngressPort port =>
      createIngress (vars s)
      && bool_decide (1 < length (containerPortArray (vars s)))%nat
      && bool_decide (port ∈ containerPortArray (vars s))
  | CheckUseRoutes _ => openshiftRouteGroupSupported (vars s)
  | SelectNamespace _ => true
  end.

Section Transitions.

Context {W : Type} {window : Window W}.
Variable ensureRestrictedSecurityContext : V1Pod.t → V1Pod.t.
Variable Date_parse : string → Z.

(** The binding of the Pod Name input (line 417). *)
Definition inputPodName (value : string) : Exec W unit :=
  withVars (λ c,
    match bodyPod c with
    | Some l => mutate l (setName value)
    | None => ret tt
    end).

(** A handler, then the reactive block; a rejection is not handled. *)
Definition flush (m : Exec W unit) (s : State W) : State W :=
  (reactive (m s).1).1.

Definition handle (e : Event) : State W → State W :=
  match e with
  | ClickDeploy => flush (deployToKube ensureRestrictedSecurityContext Date_parse)
  | TimerFires _ => flush poll
  | Destroyed => flush onDestroy
  | InputPodName value => flush (inputPodName value)
  | CheckUseServices checked => flush (assign (set_deployUsingServices checked))
  | CheckUseRestricted checked =>
      flush (assign (set_deployUsingRestrictedSecurityContext checked))
  | CheckCreateIngress checked => flush (assign (set_createIngress checked))
  | SelectIngressPort port => flush (assign (set_ingressPort port))
  | CheckUseRoutes checked => flush (assign (set_deployUsingRoutes checked))
  | SelectNamespace namespace => flush (assign (set_currentNamespace namespace))
  end.

(** The states of a component mounted on the manifest [parsed]. *)
Inductive reachable (parsed : V1Pod.t) : State W → Prop :=
| reachable_mounted namespace routeGroupSupported w :
    reachable parsed
      (flush (onMount parsed) (initialState namespace routeGroupSupported w))
| reachable_handle s e :
    reachable parsed s → enabled e s = true → reachable parsed (handle e s).

(** One event that the component accepts. *)
Definition step (s s' : State W) : Prop :=
  ∃ e, enabled e s = true ∧ s' = handle e s.

End Transitions.

(** ** A scripted host, to run the component on examples

    The script says, call after call, whether the call returns; when it is
    exhausted every call returns. *)

Definition Script := list bool.

Definition scripted {A} (a : A) (w : Script) : Script * outcome A :=
  match w with
  | [] => ([], Returned a)
  | true :: w' => (w', Returned a)
  | false :: w' => (w', Threw "rejected")
  end.

(** The pod the scripted cluster reports: created in [namespace], in
    the given phase. *)
Definition reported (namespace : string) (phase : string) (pod : V1Pod.t) : V1Pod.t :=
  V1Pod.mk
    ((λ m, V1ObjectMeta.mk (V1ObjectMeta.name m) (Some namespace)
             (V1ObjectMeta.labels m) (V1ObjectMeta.creationTimestamp m))
       <$> V1Pod.metadata pod)
    (V1Pod.spec pod) (Some (V1PodStatus.mk (Some phase))).

Definition named (name : string) : V1Pod.t :=
  V1Pod.mk (Some (V1ObjectMeta.mk (Some name) None None None)) None None.

Global Instance scriptedWindow : Window Script := {|
  kubernetesCreatePod namespace pod := scripted (reported namespace "Pending" pod);
  kubernetesCreateService namespace service := scripted tt;
  openshiftCreateRoute namespace route := scripted route;
  kubernetesCreateIngress namespace ingress := scripted tt;
  kubernetesReadNamespacedPod name namespace :=
    scripted (reported namespace "Running" (named name));
  telemetryTrack event properties := scripted tt;
|}.

(** The manifest of the end-to-end example of the spec, with a volume, a
    volume mount and a pull policy as [podman generate kube] writes them. *)
Definition web : V1Pod.t :=
  V1Pod.mk
    (Some (V1ObjectMeta.mk (Some "web") None (Some {["app" := "web"]}) None))
    (Some (V1PodSpec.mk
       [V1Container.mk "web" (Some "nginx") (Some "Always")
          (Some [V1ContainerPort.mk 80 (Some 8080) None])
          (Some [V1VolumeMount.mk "data" "/data"])]
       (Some [V1Volume.mk "data" (Some "/tmp/data")])))
    None.

(** The same manifest without [metadata.name]. *)
Definition unnamed : V1Pod.t :=
  V1Pod.mk
    (Some (V1ObjectMeta.mk None None None None))
    (V1Pod.spec web) None.

(** Two containers, two host ports. *)
Definition twoPorts : V1Pod.t :=
  V1Pod.mk
    (Some (V1ObjectMeta.mk (Some "shop") None None None))
    (Some (V1PodSpec.mk
       [V1Container.mk "front" None None
          (Some [V1ContainerPort.mk 80 (Some 8080) None]) None;
        V1Container.mk "back" None None
          (Some [V1ContainerPort.mk 5432 (Some 9090) (Some "TCP");
                 V1ContainerPort.mk 9000 None None]) None]
       None))
    None.

(** The component mounted on [parsed], on a cluster without routes, with
    the scripted host. *)
Definition mounted (parsed : V1Pod.t) (script : Script) : State Script :=
  flush (onMount parsed) (initialState "default" false script).

(** For the examples: a security posture that leaves the manifest as it
    is, and a parser of dates that answers the epoch. *)
Definition samePod : V1Pod.t → V1Pod.t := id.

Definition epoch : string → Z := λ _, 0.

(** The manifest of the form once [parsed] is loaded. *)
Definition loaded (parsed : V1Pod.t) : V1Pod.t :=
  syncLabels (forEachContainer setPullPolicy parsed).

(** The mounted component after a click on Deploy. *)
Definition deployed (parsed : V1Pod.t) (script : Script) : State Script :=
  handle samePod epoch ClickDeploy (mounted parsed script).

(** The mounted component once the ingress is requested. *)
Definition withIngress (parsed : V1Pod.t) (script : Script) : State Script :=
  handle samePod epoch (CheckCreateIngress true) (mounted parsed script).

(** ** Notions used to state the properties *)

(** A port entry with a non-empty [hostPort]: the test of line 185. *)
Definition exposed (port : V1ContainerPort.t) : bool :=
  Js.truthy_number (V1ContainerPort.hostPort port).

(** The Service of a port entry, if the entry is exposed. *)
Definition serviceOf (c : Component) (pod : V1Pod.t) (port : V1ContainerPort.t)
    : option V1Service.t :=
  match V1ContainerPort.hostPort port with
  | Some h => if h =? 0 then None else Some (newService c pod port h)
  | None => None
  end.

(** The Route of a port entry, if the entry is exposed. *)
Definition routeOf (c : Component) (pod : V1Pod.t) (port : V1ContainerPort.t)
    : option V1Route.t :=
  if exposed port then Some (newRoute c pod port) else None.

(** [service] is the ServiceSpec of the exposed [port] of the pod [podName]. *)
Definition serves (podName : string) (port : V1ContainerPort.t)
    (service : V1Service.t) : Prop :=
  ∃ h, V1ContainerPort.hostPort port = Some h
     ∧ V1Service.name service = podName +:+ "-" +:+ pretty h
     ∧ V1Service.ports service =
         [ {| ServicePort.name := podName +:+ "-" +:+ pretty h;
              ServicePort.port := h;
              ServicePort.protocol := default "TCP" (V1ContainerPort.protocol port);
              ServicePort.targetPort := V1ContainerPort.containerPort port |} ]
     ∧ V1Service.selector_app service = Some podName.

(** The host ports of the exposed port entries of a manifest. *)
Definition hostPorts (pod : V1Pod.t) : list Z :=
  omap V1ContainerPort.hostPort (List.filter exposed (V1Pod.portEntries pod)).

(** The entries a run of calls [calls] leaves in the log when every call is
    awaited before the next and the first failure ends the run: [ok]
    says whether all of them returned. *)
Inductive sequential : list Call → list (Call * bool) → bool → Prop :=
| sequential_done : sequential [] [] true
| sequential_returned call calls entries ok :
    sequential calls entries ok →
    sequential (call :: calls) ((call, true) :: entries) ok
| sequential_threw call calls :
    sequential (call :: calls) [(call, false)] false.

(** The variables a creation call does not assign. *)
Definition core (c : Component) : Component :=
  set_createdPod None (set_createdRoutes [] c).

(** The creation calls of a submission, in the order of the [try] block. *)
Definition creationCalls (namespace : string) (pod : V1Pod.t) (p : Plan)
    : list Call :=
  CreatePod namespace pod
  :: (CreateService namespace <$> servicesToCreate p)
  ++ (CreateRoute namespace <$> routesToCreate p)
  ++ (CreateIngress namespace <$> ingressesToCreate p).

(** Every container pulls its image only when it is not present. *)
Definition pullsIfNotPresent (pod : V1Pod.t) : Prop :=
  Forall (λ container, V1Container.imagePullPolicy container = Some "IfNotPresent")
         (V1Pod.containers pod).

(** [m] makes the calls [calls], in sequence, until one of them throws, and
    touches neither the store nor the timers nor, but for [createdPod] and
    [createdRoutes], the variables. *)
Definition issues {W A} (m : Exec W A) (calls : string → list Call) : Prop :=
  ∀ s, ∃ entries,
    log (m s).1 = log s ++ entries
    ∧ sequential (calls (currentNamespace (vars s))) entries (succeeded (m s).2)
    ∧ heap (m s).1 = heap s
    ∧ timers (m s).1 = timers s
    ∧ timerSeq (m s).1 = timerSeq s
    ∧ core (vars (m s).1) = core (vars s).

(** The state after lines 160 to 168 of [deployToKube]. *)
Definition resetState {W} (s : State W) : State W :=
  set_vars
    (set_createdRoutes []
       (set_createdPod None
          (set_deployWarning ""
             (set_deployError ""
                (set_deployFinished false (set_deployStarted true (vars s)))))))
    (set_timers
       (match updatePodInterval (vars s) with
        | Some h => delete h (timers s)
        | None => timers s
        end) s).

(** The entries a handler has added to the log of [s]. *)
Definition added {W} (s s' : State W) : list (Call * bool) :=
  drop (length (log s)) (log s').

(** The entries of the calls that create a resource. *)
Definition creations (entries : list (Call * bool)) : list (Call * bool) :=
  List.filter (λ entry, creates entry.1) entries.

(** [pod.metadata?.labels?.app] *)
Definition appLabel (pod : V1Pod.t) : option string :=
  metadata ← V1Pod.metadata pod;
  labels ← V1ObjectMeta.labels metadata;
  (labels : gmap string string) !! "app".

(** The telemetry event sent when the pod is seen running (lines 127 to 130). *)
Definition runningEvent (c : Component) : list (string * Js.value) :=
  [("useServices", Js.Bool (deployUsingServices c));
   ("useRoutes", Js.Bool (deployUsingRoutes c))].

(** The timers once [clearInterval(updatePodInterval)] has run. *)
Definition cancelled {W} (s : State W) : gmap nat Z :=
  match updatePodInterval (vars s) with
  | Some h => delete h (timers s)
  | None => timers s
  end.

(** The pull policies of the containers of a manifest. *)
Definition pullPolicies (pod : V1Pod.t) : list (option string) :=
  V1Container.imagePullPolicy <$> V1Pod.containers pod.

(** The manifests passed to [kubernetesCreatePod] so far. *)
Definition submitted {W} (s : State W) : list V1Pod.t :=
  omap (λ entry : Call * bool,
          match entry.1 with CreatePod _ pod => Some pod | _ => None end)
       (log s).

(** The invariant of the pull policy: it holds of the manifest of the
    form and of every manifest submitted. *)
Definition pullInvariant {W} (s : State W) : Prop :=
  Forall pullsIfNotPresent (submitted s)
  ∧ from_option pullsIfNotPresent True (manifest s).

(** The invariant of the poller: an active timer is the one held in
    [updatePodInterval], it fires every 2000 ms, and a submission is
    under way. *)
Definition timerInvariant {W} (s : State W) : Prop :=
  ∀ h ms, timers s !! h = Some ms →
          updatePodInterval (vars s) = Some h
          ∧ ms = 2000
          ∧ deployStarted (vars s) = true.

(** No timer is active and the Deploy button is not offered. *)
Definition quiet {W} (s : State W) : Prop :=
  timers s = ∅ ∧ deployStarted (vars s) = true.

(** [route] is the Route of [service]: same name, to the service, on the
    container port of its single port entry, with edge termination. *)
Definition routes (service : V1Service.t) (route : V1Route.t) : Prop :=
  V1Route.name route = V1Service.name service
  ∧ V1Route.namespace route = V1Service.namespace service
  ∧ V1Route.to_kind route = "Service"
  ∧ V1Route.to_name route = V1Service.name service
  ∧ V1Route.tls_termination route = "edge"
  ∧ V1Route.host route = None
  ∧ ∃ servicePort, V1Service.ports service = [servicePort]
                 ∧ V1Route.targetPort route = ServicePort.targetPort servicePort.

(** The name the planner gives to the objects of the host port [h]. *)
Definition nameOfPort (pod : V1Pod.t) (h : Z) : string :=
  Js.template_string (V1Pod.name pod) +:+ "-" +:+ pretty h.

(** The namespace a creation call is made in. *)
Definition callNamespace (call : Call) : option string :=
  match call with
  | CreatePod namespace _ | CreateService namespace _
  | CreateRoute namespace _ | CreateIngress namespace _ => Some namespace
  | ReadPod _ _ | TelemetryTrack _ _ => None
  end.

(** The [metadata.namespace] of the Service, Route or Ingress of a call. *)
Definition objectNamespace (call : Call) : option string :=
  match call with
  | CreateService _ service => Some (V1Service.namespace service)
  | CreateRoute _ route => Some (V1Route.namespace route)
  | CreateIngress _ ingress => Some (V1Ingress.namespace ingress)
  | CreatePod _ _ | ReadPod _ _ | TelemetryTrack _ _ => None
  end.

(** The variables bound to the controls of the form, with what [onMount]
    found of the cluster. *)
Definition options (c : Component)
    : string * bool * bool * bool * bool * bool * option Z * list (option Z) :=
  (currentNamespace c, openshiftRouteGroupSupported c, deployUsingServices c,
   deployUsingRoutes c, deployUsingRestrictedSecurityContext c, createIngress c,
   ingressPort c, containerPortArray c).

(** The log entry of a Pod creation that returned; of a Route creation
    that returned. *)
Definition podCreated (entry : Call * bool) : bool :=
  match entry with (CreatePod _ _, true) => true | _ => false end.

Definition routeCreated (entry : Call * bool) : bool :=
  match entry with (CreateRoute _ _, true) => true | _ => false end.

(** [m] creates no Pod and records the Routes the cluster created:
    [createdRoutes] grows by one for each Route creation that returned, and
    [createdPod] stays as it is. *)
Definition recordsRoutes {W A} (m : Exec W A) : Prop :=
  ∀ s, ∃ entries,
    log (m s).1 = log s ++ entries
    ∧ length (createdRoutes (vars (m s).1))
      = (length (createdRoutes (vars s))
         + length (List.filter routeCreated entries))%nat
    ∧ createdPod (vars (m s).1) = createdPod (vars s)
    ∧ List.existsb podCreated entries = false.

(** [pod.metadata?.creationTimestamp] *)
Definition creationTimestampOf (pod : V1Pod.t) : option Js.time :=
  metadata ← V1Pod.metadata pod; V1ObjectMeta.creationTimestamp metadata.

(** [pod.metadata?.labels?.[key]] *)
Definition labelOf (key : string) (pod : V1Pod.t) : option string :=
  metadata ← V1Pod.metadata pod;
  labels ← V1ObjectMeta.labels metadata;
  (labels : gmap string string) !! key.

(** What sanitization keeps of a port entry. *)
Definition keptOfPort (port : V1ContainerPort.t) : Z * option string :=
  (V1ContainerPort.containerPort port, V1ContainerPort.protocol port).

(** What sanitization keeps of a container. *)
Definition keptOfContainer (container : V1Container.t)
    : string * option string * option string * option (list (Z * option string)) :=
  (V1Container.name container, V1Container.image container,
   V1Container.imagePullPolicy container,
   (λ ports : list V1ContainerPort.t, keptOfPort <$> ports)
     <$> V1Container.ports container).

(** The Done buttons are only shown once a submission has started and a
    pod has been created. *)
Definition doneInvariant {W} (s : State W) : Prop :=
  deployFinished (vars s) = true →
  deployStarted (vars s) = true ∧ is_Some (createdPod (vars s)).

(** The component mounted on [parsed] on an OpenShift cluster, with the
    scripted host. *)
Definition mountedOnOpenShift (parsed : V1Pod.t) (script : Script)
    : State Script :=
  flush (onMount parsed) (initialState "default" true script).

(** The mounted component once the ingress is requested and [port] is
    chosen in the select. *)
Definition withPort (parsed : V1Pod.t) (port : Z) (script : Script)
    : State Script :=
  handle samePod epoch (SelectIngressPort (Some port)) (withIngress parsed script).

(** The invariant of the port choice: the port chosen for the ingress is
    one of the options of the select, and the options are the host ports of
    the manifest of the form, unless a submission has removed them. *)
Definition portInvariant {W} (s : State W) : Prop :=
  (ingressPort (vars s) = None
   ∨ ingressPort (vars s) ∈ containerPortArray (vars s))
  ∧ ∃ pod, manifest s = Some pod
         ∧ (V1ContainerPort.hostPort <$> V1Pod.portEntries pod
            = containerPortArray (vars s)
            ∨ Forall (λ port, V1ContainerPort.hostPort port = None)
                     (V1Pod.portEntries pod)).

(** * Properties *)

(** ** Planning *)

Section PlanningFacts.

Variable c : Component.
Variable pod : V1Pod.t.

Lemma planPort_fold ports acc :
  foldl (planPort c pod) acc ports =
  (acc.1 ++ omap (serviceOf c pod) ports,
   acc.2 ++ (if openshiftRouteGroupSupported c && deployUsingRoutes c
             then omap (routeOf c pod) ports else [])).
Proof.
  revert acc. induction ports as [|port ports IH]; intros [services routes]; simpl.
  - destruct (_ && _); by rewrite !app_nil_r.
  - rewrite IH. unfold planPort, serviceOf, routeOf, exposed, Js.truthy_number.
    destruct (V1ContainerPort.hostPort port) as [h|]; simpl; [|done].
    destruct (h =? 0); simpl; [done|].
    destruct (_ && _); simpl; by rewrite <- ?app_assoc.
Qed.

Lemma planContainer_fold containers acc :
  foldl (planContainer c pod) acc containers =
  (acc.1 ++ omap (serviceOf c pod)
              (container ← containers; default [] (V1Container.ports container)),
   acc.2 ++ (if openshiftRouteGroupSupported c && deployUsingRoutes c
             then omap (routeOf c pod)
                    (container ← containers; default [] (V1Container.ports container))
             else [])).
Proof.
  revert acc. induction containers as [|container containers IH]; intros acc; simpl.
  - destruct acc, (_ && _); by rewrite !app_nil_r.
  - rewrite IH. unfold planContainer.
    destruct (V1Container.ports container) as [ports|]; simpl; [|done].
    rewrite planPort_fold. simpl. rewrite !omap_app.
    destruct (_ && _); simpl; by rewrite <- ?app_assoc, ?app_nil_r.
Qed.

(** The services and routes planned, as a map over the port entries. *)
Lemma planServices_eq :
  planServices c pod =
  if deployUsingServices c
  then (omap (serviceOf c pod) (V1Pod.portEntries pod),
        if openshiftRouteGroupSupported c && deployUsingRoutes c
        then omap (routeOf c pod) (V1Pod.portEntries pod) else [])
  else ([], []).
Proof.
  unfold planServices. destruct (deployUsingServices c); [|done].
  by rewrite planContainer_fold.
Qed.

Lemma serviceOf_port0 port service :
  serviceOf c pod port = Some service →
  port0 service = V1ContainerPort.hostPort port
  ∧ V1Service.name service = portName pod port
  ∧ exposed port = true.
Proof.
  unfold serviceOf, exposed, Js.truthy_number.
  destruct (V1ContainerPort.hostPort port) as [h|]; [|done].
  destruct (h =? 0); [done|]. by intros [= <-].
Qed.

Lemma serviceOf_exposed port :
  exposed port = true → is_Some (serviceOf c pod port).
Proof.
  unfold serviceOf, exposed, Js.truthy_number.
  destruct (V1ContainerPort.hostPort port) as [h|]; [|done].
  destruct (h =? 0); [done|]. eauto.
Qed.

Lemma serviceOf_hidden port :
  exposed port = false → serviceOf c pod port = None.
Proof.
  unfold serviceOf, exposed, Js.truthy_number.
  destruct (V1ContainerPort.hostPort port) as [h|]; [|done].
  by destruct (h =? 0).
Qed.

(** Every planned service carries one port entry, so that reading
    [spec.ports[0].port] never throws. *)
Lemma planned_port0 service :
  service ∈ (planServices c pod).1 → is_Some (port0 service).
Proof.
  rewrite planServices_eq. destruct (deployUsingServices c); simpl.
  - intros (port & _ & Hsome)%list_elem_of_omap.
    apply serviceOf_port0 in Hsome as (-> & _ & Hexp).
    unfold exposed, Js.truthy_number in Hexp.
    by destruct (V1ContainerPort.hostPort port).
  - by intros ?%elem_of_nil.
Qed.

(** A planned service has a single port entry. *)
Lemma planned_single_port service :
  service ∈ (planServices c pod).1 →
  ∃ servicePort, V1Service.ports service = [servicePort]
               ∧ port0 service = Some (ServicePort.port servicePort).
Proof.
  rewrite planServices_eq. destruct (deployUsingServices c); simpl.
  - intros (port & _ & Hsome)%list_elem_of_omap. unfold serviceOf in Hsome.
    destruct (V1ContainerPort.hostPort port) as [h|]; [|done].
    destruct (h =? 0); [done|]. injection Hsome as <-. by eexists.
  - by intros ?%elem_of_nil.
Qed.

(** The name of a planned service is determined by its port. *)
Lemma planned_name service :
  service ∈ (planServices c pod).1 →
  ∃ h, port0 service = Some h
     ∧ V1Service.name service =
         Js.template_string (V1Pod.name pod) +:+ "-" +:+ pretty h.
Proof.
  rewrite planServices_eq. destruct (deployUsingServices c); simpl.
  - intros (port & _ & Hsome)%list_elem_of_omap.
    apply serviceOf_port0 in Hsome as (-> & -> & Hexp).
    unfold exposed, Js.truthy_number in Hexp. unfold portName.
    destruct (V1ContainerPort.hostPort port) as [h|]; [|done]. by exists h.
  - by intros ?%elem_of_nil.
Qed.

End PlanningFacts.

Section PlanFacts.

Variable c : Component.
Variable pod : V1Pod.t.

Lemma findByPort_spec p services :
  (∀ service, service ∈ services → is_Some (port0 service)) →
  match findByPort p services with
  | Returned (Some matching) => matching ∈ services ∧ port0 matching = Some p
  | Returned None => ∀ service, service ∈ services → port0 service ≠ Some p
  | Threw _ => False
  end.
Proof.
  induction services as [|service services IH]; intros Hports; simpl.
  - by intros ? ?%elem_of_nil.
  - destruct (Hports service) as [q Hq]; [by left|]. rewrite Hq.
    destruct (Z.eqb_spec q p) as [->|Hne].
    + split; [by left|done].
    + specialize (IH (λ x Hx, Hports x (list_elem_of_further _ _ _ Hx))).
      destruct (findByPort p services) as [[matching|]|]; [| |done].
      * destruct IH. split; [by right|done].
      * intros x [->|Hx]%elem_of_cons; [congruence|by apply IH].
Qed.

(** Lines 254 to 270: the choice among several services. *)
Lemma planIngress_several service service' services :
  createIngress c = true →
  planIngress c pod (service :: service' :: services) =
  match ingressPort c with
  | Some p =>
      if p =? 0 then Returned (Warned noPortWarning)
      else
        match findByPort p (service :: service' :: services) with
        | Returned (Some matchingService) =>
            match port0 matchingService with
            | Some servicePort =>
                Returned (Proceed
                  [newIngress c pod (V1Service.name matchingService) servicePort])
            | None => Threw TypeError
            end
        | Returned None => Returned (Failed noMatchError)
        | Threw e => Threw e
        end
  | None => Returned (Warned noPortWarning)
  end.
Proof. unfold planIngress. by intros ->. Qed.

(** Planning returns: no read of [spec.ports[0]] throws. *)
Lemma plan_returns : ∃ p, plan c pod = Returned p.
Proof.
  unfold plan. destruct (Js.truthy_string _); [|by eexists].
  pose proof (planned_port0 c pod) as Hports.
  destruct (planServices c pod) as [services routes]; simpl in Hports.
  unfold planIngress. destruct (createIngress c); [|by eexists].
  destruct services as [|service [|service' services]]; [by eexists| |].
  - destruct (Hports service) as [q ->]; [by left|]. by eexists.
  - destruct (ingressPort c) as [q|]; [|by eexists].
    destruct (q =? 0); [by eexists|].
    pose proof (findByPort_spec q _ Hports) as Hfind.
    destruct (findByPort q _) as [[matching|]|]; [|by eexists|done].
    destruct Hfind as [_ ->]. by eexists.
Qed.

(** For a pod with a name, the plan holds the services and routes of
    lines 178 to 237. *)
Lemma plan_named p :
  Js.truthy_string (V1Pod.name pod) = true →
  plan c pod = Returned p →
  servicesToCreate p = (planServices c pod).1
  ∧ routesToCreate p = (planServices c pod).2.
Proof.
  unfold plan. intros ->. destruct (planServices c pod) as [services routes].
  destruct (planIngress c pod services) as [[?|?|?]|]; by intros [= <-].
Qed.

(** For a pod without a name, nothing is planned. *)
Lemma plan_unnamed :
  Js.truthy_string (V1Pod.name pod) = false →
  plan c pod = Returned (mkPlan [] [] [] Skip).
Proof. unfold plan. by intros ->. Qed.

Lemma truthy_name podName :
  V1Pod.name pod = Some podName → podName ≠ "" →
  Js.truthy_string (V1Pod.name pod) = true.
Proof.
  intros -> Hne. simpl. destruct (String.eqb_spec podName ""); done.
Qed.

Lemma serviceOf_serves podName port service :
  V1Pod.name pod = Some podName →
  serviceOf c pod port = Some service → serves podName port service.
Proof.
  unfold serviceOf, serves, newService, portName. intros ->.
  destruct (V1ContainerPort.hostPort port) as [h|]; [|done].
  destruct (h =? 0); [done|]. intros [= <-]. by exists h.
Qed.

Lemma omap_serviceOf_serves podName ports :
  V1Pod.name pod = Some podName →
  Forall2 (serves podName) (List.filter exposed ports) (omap (serviceOf c pod) ports).
Proof.
  intros Hname. induction ports as [|port ports IH]; simpl; [constructor|].
  destruct (exposed port) eqn:Hexposed.
  - destruct (serviceOf_exposed c pod port Hexposed) as [service Hservice].
    rewrite Hservice. simpl. constructor; [|done].
    by eapply serviceOf_serves.
  - by rewrite serviceOf_hidden.
Qed.

Lemma hostPorts_length :
  length (hostPorts pod) = length (List.filter exposed (V1Pod.portEntries pod)).
Proof.
  unfold hostPorts. induction (V1Pod.portEntries pod) as [|port ports IH]; [done|].
  simpl. destruct (exposed port) eqn:Hexposed; [|done]. simpl.
  unfold exposed, Js.truthy_number in Hexposed.
  destruct (V1ContainerPort.hostPort port); [|done]. simpl. by f_equal.
Qed.

End PlanFacts.

(** Nothing is exposed once the host ports are deleted. *)
Lemma omap_serviceOf_hidden c pod ports :
  Forall (λ port, V1ContainerPort.hostPort port = None) ports →
  omap (serviceOf c pod) ports = [].
Proof.
  induction 1 as [|port ports Hport _ IH]; [done|]. simpl.
  unfold serviceOf at 1. by rewrite Hport.
Qed.

Lemma omap_serviceOf_exposed c pod ports :
  Exists (λ port, exposed port = true) ports →
  omap (serviceOf c pod) ports ≠ [].
Proof.
  induction 1 as [port ports Hport|port ports _ IH]; simpl.
  - by destruct (serviceOf_exposed c pod port Hport) as [service ->].
  - by destruct (serviceOf c pod port).
Qed.

Lemma portEntries_removeHostFields c pod :
  deployUsingServices c = true →
  V1Pod.portEntries (removeHostFields c pod)
  = deleteHostPort <$> V1Pod.portEntries pod.
Proof.
  intros Hservices. unfold removeHostFields. rewrite Hservices.
  unfold V1Pod.portEntries, V1Pod.containers, forEachContainer, deleteVolumes.
  destruct pod as [metadata [spec|] status]; [|done]. simpl.
  assert (∀ containers : list V1Container.t,
    (container ← deleteHostSettings <$> containers;
       default [] (V1Container.ports container))
    = deleteHostPort <$> (container ← containers;
       default [] (V1Container.ports container))) as Hbind.
  { induction containers as [|container containers IH]; [done|].
    rewrite fmap_cons, !bind_cons, IH, fmap_app. f_equal.
    simpl. by destruct (V1Container.ports container). }
  destruct (V1PodSpec.volumes spec); simpl; apply Hbind.
Qed.

(** ** Sequences of calls *)

Lemma sequential_app_returned calls1 calls2 entries1 entries2 ok :
  sequential calls1 entries1 true →
  sequential calls2 entries2 ok →
  sequential (calls1 ++ calls2) (entries1 ++ entries2) ok.
Proof.
  intros H1 H2. remember true as b eqn:Hb.
  induction H1; simpl; [done| |done].
  constructor. by apply IHsequential.
Qed.

Lemma sequential_app_threw calls1 calls2 entries1 :
  sequential calls1 entries1 false →
  sequential (calls1 ++ calls2) entries1 false.
Proof.
  intros H1. remember false as b eqn:Hb.
  induction H1; simpl; [done| |constructor].
  constructor. by apply IHsequential.
Qed.

(** The calls made are an initial segment of the calls to make. *)
Lemma sequential_prefix calls entries ok :
  sequential calls entries ok → entries.*1 `prefix_of` calls.
Proof.
  induction 1; simpl.
  - done.
  - by apply prefix_cons.
  - apply prefix_cons, prefix_nil.
Qed.

Lemma sequential_all_returned calls entries ok :
  sequential calls entries ok → ok = true →
  entries = (λ call, (call, true)) <$> calls.
Proof.
  induction 1; intros Hok; simpl; [done| |done].
  f_equal. by apply IHsequential.
Qed.

(** When no call threw, every call was made and returned. *)
Lemma sequential_all calls entries :
  sequential calls entries true → entries = (λ call, (call, true)) <$> calls.
Proof. intros H. by eapply sequential_all_returned. Qed.

(** A call that threw is the last call made. *)
Lemma sequential_threw_last calls entries ok i call :
  sequential calls entries ok →
  entries !! i = Some (call, false) →
  S i = length entries ∧ ok = false.
Proof.
  intros H. revert i. induction H; intros i Hi.
  - done.
  - destruct i as [|i]; simpl in *; [done|].
    destruct (IHsequential i Hi) as [-> ->]. done.
  - destruct i as [|i]; simpl in *; [done|]. done.
Qed.

(** When a call threw, the log says so. *)
Lemma sequential_threw_entry calls entries :
  sequential calls entries false →
  ∃ call, last entries = Some (call, false).
Proof.
  intros H. remember false as b eqn:Hb.
  induction H; [done| |by eexists].
  destruct (IHsequential Hb) as [call' Hlast]. exists call'.
  destruct entries; [done|]. done.
Qed.

(** The last call apart, a run is a run of the calls before it. *)
Lemma sequential_snoc calls event entries ok :
  sequential (calls ++ [event]) entries ok →
  ∃ entries1,
    (sequential calls entries1 false ∧ ok = false ∧ entries = entries1)
    ∨ (sequential calls entries1 true ∧ entries = entries1 ++ [(event, ok)]).
Proof.
  revert entries. induction calls as [|call calls IH]; intros entries H; simpl in H.
  - exists []. right. split; [constructor|].
    inversion H as [|? ? ? ? Hrest|]; subst; [|done].
    by inversion Hrest.
  - inversion H as [|? ? entries' ? Hrest|]; subst.
    + destruct (IH _ Hrest) as [entries1 [(? & -> & ->)|(? & ->)]].
      * exists ((call, true) :: entries1). left. split_and!; [by constructor|done..].
      * exists ((call, true) :: entries1). right. split; [by constructor|done].
    + exists [(call, false)]. left. split_and!; [constructor|done..].
Qed.

Lemma sequential_creates calls entries ok :
  Forall (λ call, creates call = true) calls →
  sequential calls entries ok →
  creations entries = entries.
Proof.
  intros Hcalls H. induction H; [done| |].
  - inversion Hcalls as [|? ? Hcall Hrest]; subst.
    unfold creations in *. simpl. rewrite Hcall. f_equal. by apply IHsequential.
  - inversion Hcalls as [|? ? Hcall Hrest]; subst.
    unfold creations. simpl. by rewrite Hcall.
Qed.

Lemma creations_app entries1 entries2 :
  creations (entries1 ++ entries2) = creations entries1 ++ creations entries2.
Proof. apply List.filter_app. Qed.

Lemma creationCalls_create namespace pod p :
  Forall (λ call, creates call = true) (creationCalls namespace pod p).
Proof.
  unfold creationCalls. constructor; [done|].
  rewrite !Forall_app. split_and!; by apply Forall_fmap, Forall_true.
Qed.

Section Calls.

Context {W : Type} {window : Window W}.

Lemma bind_unfold {A B} (m : Exec W A) (k : A → Exec W B) s :
  (m ≫= k) s =
  match m s with
  | (s', Returned a) => k a s'
  | (s', Threw e) => (s', Threw e)
  end.
Proof. reflexivity. Qed.

Lemma core_namespace (c c' : Component) :
  core c = core c' → currentNamespace c = currentNamespace c'.
Proof. intros H. by apply (f_equal currentNamespace) in H. Qed.

Lemma issues_ret {A} (a : A) : issues (W:=W) (ret a) (λ _, []).
Proof. intros s. exists []. simpl. rewrite app_nil_r. repeat split. constructor. Qed.

Lemma issues_bind {A B} (m : Exec W A) (k : A → Exec W B) calls1 calls2 :
  issues m calls1 → (∀ a, issues (k a) calls2) →
  issues (m ≫= k) (λ namespace, calls1 namespace ++ calls2 namespace).
Proof.
  intros Hm Hk s. rewrite bind_unfold.
  destruct (Hm s) as (entries1 & Hlog & Hseq & Hheap & Htimers & Hseq' & Hcore).
  destruct (m s) as [s1 [a|e]]; simpl in *.
  - destruct (Hk a s1) as (entries2 & Hlog2 & Hseq2 & Hheap2 & Htimers2 & Hseq2' & Hcore2).
    exists (entries1 ++ entries2).
    rewrite Hlog2, Hlog, Hheap2, Htimers2, Hseq2', Hcore2, <- app_assoc.
    repeat split; try done.
    apply sequential_app_returned; [done|].
    by rewrite <- (core_namespace _ _ Hcore).
  - exists entries1. repeat split; try done.
    by apply sequential_app_threw.
Qed.

Lemma issues_perform {A} (call : string → Call) (f : string → W → W * outcome A) :
  issues (withVars (λ c, perform (call (currentNamespace c)) (f (currentNamespace c))))
         (λ namespace, [call namespace]).
Proof.
  intros s. unfold withVars, perform.
  destruct (f _ (world s)) as [w [a|e]]; simpl;
    eexists; (split; [reflexivity|]); repeat split; repeat constructor.
Qed.

Lemma issues_telemetry event properties :
  issues (perform (W:=W) (TelemetryTrack event properties)
                  (telemetryTrack event properties))
         (λ _, [TelemetryTrack event properties]).
Proof.
  intros s. unfold perform.
  destruct (telemetryTrack _ _ (world s)) as [w [a|e]]; simpl;
    eexists; (split; [reflexivity|]); repeat split; repeat constructor.
Qed.

Lemma issues_createdPod pod :
  issues (W:=W) (assign (set_createdPod pod)) (λ _, []).
Proof.
  intros s. exists []. simpl. rewrite app_nil_r. repeat split. constructor.
Qed.

Lemma issues_createdRoutes route :
  issues (W:=W) (assign (λ c, set_createdRoutes (createdRoutes c ++ [route]) c))
         (λ _, []).
Proof.
  intros s. exists []. simpl. rewrite app_nil_r. repeat split. constructor.
Qed.

Lemma issues_ext {A} (m : Exec W A) calls calls' :
  (∀ namespace, calls namespace = calls' namespace) →
  issues m calls → issues m calls'.
Proof.
  intros Heq Hm s. destruct (Hm s) as (entries & ? & ? & ?).
  exists entries. by rewrite <- Heq.
Qed.

(** A loop whose body makes one call per element. *)
Lemma issues_forOf {A} (xs : list A) (body : A → Exec W unit)
    (call : string → A → Call) :
  (∀ x, issues (body x) (λ namespace, [call namespace x])) →
  issues (forOf xs body) (λ namespace, call namespace <$> xs).
Proof.
  intros Hbody. induction xs as [|x xs IH]; simpl.
  - apply issues_ret.
  - eapply issues_ext; [|apply issues_bind; [apply Hbody|intros _; apply IH]].
    done.
Qed.

End Calls.

(** Lines 313 to 341, the two steps apart. *)
Lemma sanitize_eq ensureRestrictedSecurityContext c pod :
  sanitize ensureRestrictedSecurityContext c pod =
  if deployUsingRestrictedSecurityContext c
  then ensureRestrictedSecurityContext (removeHostFields c pod)
  else removeHostFields c pod.
Proof. reflexivity. Qed.

(** ** The submission *)

Section Submission.

Context {W : Type} {window : Window W}.
Variable ensureRestrictedSecurityContext : V1Pod.t → V1Pod.t.
Variable Date_parse : string → Z.

Local Abbreviation sanitize := (sanitize ensureRestrictedSecurityContext).
Local Abbreviation submit := (submit ensureRestrictedSecurityContext).
Local Abbreviation deployToKube := (deployToKube ensureRestrictedSecurityContext Date_parse).

Lemma added_app (s s' : State W) entries :
  log s' = log s ++ entries → added s s' = entries.
Proof. intros H. unfold added. by rewrite H, drop_app_length. Qed.

Lemma reset_eq (s : State W) : reset s = (resetState s, Returned tt).
Proof.
  destruct s as [c ? ? ? ? ?], c as [? ? ? ? ? interval ? ? ? ? ? ? ? ? ? ?].
  by destruct interval.
Qed.

(** The calls of the [try] block are made in the order of [creationCalls],
    then the telemetry event is sent; the first rejection ends them. *)
Lemma createAll_issues l p properties (s : State W) pod :
  heap s !! l = Some pod →
  ∃ entries,
    log (createAll l p properties s).1 = log s ++ entries
    ∧ sequential (creationCalls (currentNamespace (vars s)) pod p
                  ++ [TelemetryTrack "deployToKube" properties])
                 entries (succeeded (createAll l p properties s).2)
    ∧ heap (createAll l p properties s).1 = heap s
    ∧ timers (createAll l p properties s).1 = timers s
    ∧ timerSeq (createAll l p properties s).1 = timerSeq s
    ∧ core (vars (createAll l p properties s).1) = core (vars s).
Proof.
  intros Hl.
  assert (Hcalls : issues
    (created ← withVars (λ c,
       perform (CreatePod (currentNamespace c) pod)
               (kubernetesCreatePod (currentNamespace c) pod));
     assign (set_createdPod (Some created));;
     forOf (servicesToCreate p) (λ service,
       withVars (λ c,
         perform (CreateService (currentNamespace c) service)
                 (kubernetesCreateService (currentNamespace c) service)));;
     forOf (routesToCreate p) (λ route,
       createdRoute ← withVars (λ c,
         perform (CreateRoute (currentNamespace c) route)
                 (openshiftCreateRoute (currentNamespace c) route));
       assign (λ c, set_createdRoutes (createdRoutes c ++ [createdRoute]) c));;
     forOf (ingressesToCreate p) (λ ingress,
       withVars (λ c,
         perform (CreateIngress (currentNamespace c) ingress)
                 (kubernetesCreateIngress (currentNamespace c) ingress)));;
     perform (TelemetryTrack "deployToKube" properties)
             (telemetryTrack "deployToKube" properties))
    (λ namespace, creationCalls namespace pod p
                  ++ [TelemetryTrack "deployToKube" properties])).
  { eapply issues_ext; last first.
    - apply issues_bind;
        [apply (issues_perform (λ namespace, CreatePod namespace pod)
                  (λ namespace, kubernetesCreatePod namespace pod))|].
      intros created. apply issues_bind; [apply issues_createdPod|]. intros _.
      apply issues_bind;
        [apply (issues_forOf _ _ (λ namespace service, CreateService namespace service))|].
      { intros service.
        apply (issues_perform (λ namespace, CreateService namespace service)
                 (λ namespace, kubernetesCreateService namespace service)). }
      intros _. apply issues_bind;
        [apply (issues_forOf _ _ (λ namespace route, CreateRoute namespace route))|].
      { intros route. eapply issues_ext; last first.
        - apply issues_bind;
            [apply (issues_perform (λ namespace, CreateRoute namespace route)
                      (λ namespace, openshiftCreateRoute namespace route))|].
          intros createdRoute. apply issues_createdRoutes.
        - done. }
      intros _. apply issues_bind;
        [apply (issues_forOf _ _ (λ namespace ingress, CreateIngress namespace ingress))|].
      { intros ingress.
        apply (issues_perform (λ namespace, CreateIngress namespace ingress)
                 (λ namespace, kubernetesCreateIngress namespace ingress)). }
      intros _. apply issues_telemetry.
    - intros namespace. unfold creationCalls. simpl.
      by rewrite <- !app_assoc. }
  match type of Hcalls with
  | issues ?m _ => assert (createAll l p properties s = m s) as ->
  end.
  { unfold createAll. rewrite bind_unfold. unfold deref. simpl. by rewrite Hl. }
  exact (Hcalls s).
Qed.

Lemma plan_resetState (s : State W) pod :
  plan (vars (resetState s)) pod = plan (vars s) pod.
Proof. reflexivity. Qed.

(** [deployToKube], case by case on the plan. *)
Lemma deployToKube_eq (s : State W) l pod :
  bodyPod (vars s) = Some l → heap s !! l = Some pod →
  deployToKube s =
  match plan (vars s) pod with
  | Returned p =>
      match ending p with
      | Submit =>
          submit l p (eventProperties (vars s))
            (set_heap (alter (dateCreationTimestamp Date_parse) l (heap s))
                      (resetState s))
      | Warn warning =>
          (set_vars (set_deployStarted false
                       (set_deployWarning warning (vars (resetState s))))
                    (resetState s), Returned tt)
      | Fail error =>
          (set_vars (set_deployError error (vars (resetState s))) (resetState s),
           Returned tt)
      | Skip => (resetState s, Returned tt)
      end
  | Threw e => (resetState s, Threw e)
  end.
Proof.
  intros Hbody Hl. unfold deployToKube. rewrite bind_unfold, reset_eq.
  unfold withVars. rewrite bind_unfold. unfold deref.
  change (bodyPod (vars (resetState s))) with (bodyPod (vars s)).
  change (heap (resetState s)) with (heap s).
  rewrite Hbody. simpl. rewrite Hl.
  change (plan (set_createdRoutes _ _) pod) with (plan (vars s) pod).
  change (eventProperties (set_createdRoutes _ _)) with (eventProperties (vars s)).
  destruct (plan (vars s) pod) as [p|e]; [|done].
  destruct (ending p); done.
Qed.

(** A manifest that is not in the store cannot be read. *)
Lemma deployToKube_undefined (s : State W) :
  manifest s = None → deployToKube s = (resetState s, Threw TypeError).
Proof.
  unfold manifest. intros Hnone. unfold deployToKube.
  rewrite bind_unfold, reset_eq. unfold withVars. rewrite bind_unfold.
  unfold deref.
  change (bodyPod (vars (resetState s))) with (bodyPod (vars s)).
  change (heap (resetState s)) with (heap s).
  by rewrite Hnone.
Qed.

(** The [try] block, up to the last call: what it leaves, and how
    [submit] goes on. *)
Lemma submit_cases (s : State W) l p properties pod :
  heap s !! l = Some pod →
  ∃ s2 (r : outcome unit) entries,
    log s2 = log s ++ entries
    ∧ sequential (creationCalls (currentNamespace (vars s))
                                (sanitize (vars s) pod) p
                  ++ [TelemetryTrack "deployToKube" properties])
                 entries (succeeded r)
    ∧ heap s2 = alter (sanitize (vars s)) l (heap s)
    ∧ timers s2 = timers s
    ∧ timerSeq s2 = timerSeq s
    ∧ core (vars s2) = core (vars s)
    ∧ submit l p properties s =
      match r with
      | Returned _ => startPolling s2
      | Threw e => rollback (Some l) properties e s2
      end.
Proof.
  intros Hl.
  set (s1 := set_heap (alter (sanitize (vars s)) l (heap s)) s).
  assert (Hl1 : heap s1 !! l = Some (sanitize (vars s) pod)).
  { simpl. rewrite lookup_alter_eq, Hl. done. }
  destruct (createAll_issues l p properties s1 _ Hl1)
    as (entries & Hlog & Hseq & Hheap & Htimers & Hseq' & Hcore).
  exists (createAll l p properties s1).1, (createAll l p properties s1).2, entries.
  repeat split; try done.
  unfold submit, tryCatch. rewrite bind_unfold. unfold withVars, mutate.
  fold s1. rewrite bind_unfold.
  destruct (createAll l p properties s1) as [s2 [[]|e]]; done.
Qed.

End Submission.

(** ** The services of a manifest *)

(** C3, amended. For every manifest with a non-empty [metadata.name]:
    with [useServices] true, planning produces one ServiceSpec per port
    entry with a non-empty [hostPort], in order, named
    ["{podName}-{hostPort}"], with a single port entry whose [port] is the
    [hostPort], whose [protocol] is that of the port or ["TCP"] when
    absent, whose [targetPort] is the [containerPort], and whose selector
    binds [app] to the pod name; a port entry without [hostPort] gives no
    service; N distinct host ports give exactly N services; with
    [useServices] false no service is planned. *)
Theorem services_planned_per_host_port (c : Component) (pod : V1Pod.t)
    (podName : string) :
  V1Pod.name pod = Some podName →
  podName ≠ "" →
  ∃ p, plan c pod = Returned p
     ∧ (deployUsingServices c = true →
          Forall2 (serves podName)
                  (List.filter exposed (V1Pod.portEntries pod))
                  (servicesToCreate p)
          ∧ length (servicesToCreate p) = length (hostPorts pod)
          ∧ (NoDup (hostPorts pod) →
               length (servicesToCreate p)
               = size (list_to_set (hostPorts pod) : gset Z)))
     ∧ (deployUsingServices c = false → servicesToCreate p = []).
Proof.
  intros Hname Hne.
  destruct (plan_returns c pod) as [p Hp]. exists p. split; [done|].
  destruct (plan_named c pod p (truthy_name pod podName Hname Hne) Hp) as [-> _].
  rewrite planServices_eq. split; intros ->; [|done]. simpl.
  assert (Hserves := omap_serviceOf_serves c pod podName (V1Pod.portEntries pod) Hname).
  assert (Hlength : length (omap (serviceOf c pod) (V1Pod.portEntries pod))
                    = length (hostPorts pod)).
  { rewrite hostPorts_length. symmetry. by eapply Forall2_length. }
  split_and!; [done|done|].
  intros Hdup. by rewrite Hlength, size_list_to_set.
Qed.

(** ** Sanitization and planning *)

Lemma volumes_removeHostFields c pod :
  V1Pod.spec (removeHostFields c pod) ≫= V1PodSpec.volumes = None.
Proof.
  unfold removeHostFields, deleteVolumes, forEachContainer.
  destruct pod as [metadata [[containers [volumes|]]|] status];
    by destruct (deployUsingServices c).
Qed.

Lemma volumeMounts_removeHostFields c pod :
  deployUsingServices c = true →
  Forall (λ container, V1Container.volumeMounts container = None)
         (V1Pod.containers (removeHostFields c pod)).
Proof.
  intros Hservices. unfold removeHostFields. rewrite Hservices.
  unfold deleteVolumes, forEachContainer, V1Pod.containers.
  destruct pod as [metadata [[containers [volumes|]]|] status]; simpl;
    try done; by apply Forall_fmap, Forall_true.
Qed.

Lemma name_removeHostFields c pod :
  V1Pod.name (removeHostFields c pod) = V1Pod.name pod.
Proof.
  unfold removeHostFields, deleteVolumes, forEachContainer.
  destruct pod as [metadata [[containers [volumes|]]|] status];
    by destruct (deployUsingServices c).
Qed.

(** C4, amended. Sanitization with [useServices] true removes every
    [hostPort] of every container port and the [volumeMounts] of every
    container, and [spec.volumes] whatever the options; the planner then
    finds no service in the sanitized manifest; and for a manifest with a
    non-empty [metadata.name] and at least one non-empty [hostPort],
    planning before sanitization and planning after it differ. *)
Theorem sanitized_manifest_plans_no_service (c : Component) (pod : V1Pod.t) :
  deployUsingServices c = true →
  Forall (λ port, V1ContainerPort.hostPort port = None)
         (V1Pod.portEntries (removeHostFields c pod))
  ∧ Forall (λ container, V1Container.volumeMounts container = None)
           (V1Pod.containers (removeHostFields c pod))
  ∧ (∀ c', V1Pod.spec (removeHostFields c' pod) ≫= V1PodSpec.volumes = None)
  ∧ (∃ p', plan c (removeHostFields c pod) = Returned p'
         ∧ servicesToCreate p' = [])
  ∧ (Js.truthy_string (V1Pod.name pod) = true →
     Exists (λ port, exposed port = true) (V1Pod.portEntries pod) →
     ∃ p p', plan c pod = Returned p
           ∧ plan c (removeHostFields c pod) = Returned p'
           ∧ servicesToCreate p ≠ servicesToCreate p').
Proof.
  intros Hservices.
  assert (Hhidden : Forall (λ port, V1ContainerPort.hostPort port = None)
                      (V1Pod.portEntries (removeHostFields c pod))).
  { rewrite portEntries_removeHostFields by done. by apply Forall_fmap, Forall_true. }
  assert (Hafter : ∀ p', plan c (removeHostFields c pod) = Returned p' →
                         servicesToCreate p' = []).
  { intros p' Hp'.
    destruct (Js.truthy_string (V1Pod.name (removeHostFields c pod))) eqn:Hname.
    - destruct (plan_named _ _ _ Hname Hp') as [-> _].
      rewrite planServices_eq, Hservices. simpl.
      by apply omap_serviceOf_hidden.
    - rewrite plan_unnamed in Hp' by done. by injection Hp' as <-. }
  destruct (plan_returns c (removeHostFields c pod)) as [p' Hp'].
  split_and!; [done|by apply volumeMounts_removeHostFields| |by eauto|].
  - intros c'. apply volumes_removeHostFields.
  - intros Hname Hexposed.
    destruct (plan_returns c pod) as [p Hp]. exists p, p'. split_and!; [done..|].
    rewrite (Hafter p' Hp').
    destruct (plan_named _ _ _ Hname Hp) as [-> _].
    rewrite planServices_eq, Hservices. simpl.
    by apply omap_serviceOf_exposed.
Qed.

(** ** The handlers *)

Section Claims.

Context {W : Type} {window : Window W}.
Variable ensureRestrictedSecurityContext : V1Pod.t → V1Pod.t.
Variable Date_parse : string → Z.

Local Abbreviation sanitize := (sanitize ensureRestrictedSecurityContext).
Local Abbreviation deployToKube :=
  (deployToKube ensureRestrictedSecurityContext Date_parse).

Lemma manifest_Some (s : State W) pod :
  manifest s = Some pod →
  ∃ l, bodyPod (vars s) = Some l ∧ heap s !! l = Some pod.
Proof.
  unfold manifest. destruct (bodyPod (vars s)) as [l|]; [|done]. by exists l.
Qed.

(** When planning ends with a warning, with an error or with nothing to
    do, no call is made through the bridge. *)
Lemma deployToKube_no_call (s : State W) pod p :
  manifest s = Some pod →
  plan (vars s) pod = Returned p →
  ending p ≠ Submit →
  log (deployToKube s).1 = log s ∧ (deployToKube s).2 = Returned tt.
Proof.
  intros (l & Hbody & Hl)%manifest_Some Hp Hending.
  rewrite (deployToKube_eq _ _ s l pod Hbody Hl), Hp.
  by destruct (ending p).
Qed.

(** The case analysis of lines 247 to 270 on the planned services. *)
Lemma plan_ingress_cases (c : Component) (pod : V1Pod.t) :
  Js.truthy_string (V1Pod.name pod) = true →
  createIngress c = true →
  ∃ p, plan c pod = Returned p
     ∧ match servicesToCreate p with
       | [] => ending p = Warn noServiceWarning ∧ ingressesToCreate p = []
       | [service] =>
           ∃ servicePort,
             V1Service.ports service = [servicePort]
             ∧ ending p = Submit
             ∧ ingressesToCreate p =
                 [newIngress c pod (V1Service.name service)
                             (ServicePort.port servicePort)]
       | _ =>
           (Js.truthy_number (ingressPort c) = false →
              ending p = Warn noPortWarning ∧ ingressesToCreate p = [])
           ∧ (∀ q, ingressPort c = Some q → q ≠ 0 →
                (∀ service, service ∈ servicesToCreate p →
                   port0 service = Some q →
                   ending p = Submit
                   ∧ ingressesToCreate p =
                       [newIngress c pod (V1Service.name service) q])
                ∧ ((∀ service, service ∈ servicesToCreate p →
                      port0 service ≠ Some q) →
                   ending p = Fail noMatchError ∧ ingressesToCreate p = []))
       end.
Proof.
  intros Hname Hingress.
  destruct (plan_returns c pod) as [p Hp]. exists p.
  split; [done|].
  pose proof (planned_single_port c pod) as Hsingle.
  pose proof (planned_name c pod) as Hnames.
  revert Hp. unfold plan. rewrite Hname.
  destruct (planServices c pod) as [services routes].
  simpl in Hsingle, Hnames.
  destruct services as [|service [|service' services]].
  - unfold planIngress. rewrite Hingress. by intros [= <-].
  - unfold planIngress. rewrite Hingress.
    destruct (Hsingle service) as (servicePort & Hports & Hport0); [by left|].
    rewrite Hport0. intros [= <-]. simpl. by exists servicePort.
  - rewrite planIngress_several by done.
    set (planned := service :: service' :: services) in *.
    assert (Hports : ∀ x, x ∈ planned → is_Some (port0 x)).
    { intros x Hx. destruct (Hsingle x Hx) as (? & _ & ->). by eexists. }
    destruct (ingressPort c) as [q|]; [|by intros [= <-]].
    cbn [Js.truthy_number]. destruct (Z.eqb_spec q 0) as [->|Hq].
    { intros [= <-]. cbn. split; [done|]. by intros ? [= <-]. }
    pose proof (findByPort_spec q planned Hports) as Hfind.
    destruct (findByPort q planned) as [[matching|]|]; [| |done].
    + destruct Hfind as [Hin Hmatching]. rewrite Hmatching.
      intros [= <-]. cbn. split; [done|]. intros ? [= <-] _. split.
      * intros x Hx Hxq. split; [done|]. do 2 f_equal.
        destruct (Hnames x Hx) as (h & Hh & ->).
        destruct (Hnames matching Hin) as (h' & Hh' & ->).
        congruence.
      * intros Hnone. by destruct (Hnone matching Hin).
    + intros [= <-]. cbn. split; [done|]. intros ? [= <-] _. split; [|done].
      intros x Hx Hxq. by destruct (Hfind x Hx).
Qed.

(** C2, amended. For a manifest with a non-empty [metadata.name], when
    an ingress is requested: without planned service, a warning and no
    ingress; with one planned service, an ingress whose default backend
    is that service's name and single port; with more than one and no
    [ingressPort] chosen, a warning and no ingress; with more than one
    and an [ingressPort] that is the port of a planned service, an ingress
    whose default backend is that service; with more than one and an
    [ingressPort] that is the port of no planned service, an error and no
    ingress. With a warning or an error, no call is made. *)
Theorem ingress_planning_cases (s : State W) (pod : V1Pod.t) :
  manifest s = Some pod →
  Js.truthy_string (V1Pod.name pod) = true →
  createIngress (vars s) = true →
  ∃ p, plan (vars s) pod = Returned p
     ∧ match servicesToCreate p with
       | [] => ending p = Warn noServiceWarning ∧ ingressesToCreate p = []
       | [service] =>
           ∃ servicePort,
             V1Service.ports service = [servicePort]
             ∧ ending p = Submit
             ∧ ingressesToCreate p =
                 [newIngress (vars s) pod (V1Service.name service)
                             (ServicePort.port servicePort)]
       | _ =>
           (Js.truthy_number (ingressPort (vars s)) = false →
              ending p = Warn noPortWarning ∧ ingressesToCreate p = [])
           ∧ (∀ q, ingressPort (vars s) = Some q → q ≠ 0 →
                (∀ service, service ∈ servicesToCreate p →
                   port0 service = Some q →
                   ending p = Submit
                   ∧ ingressesToCreate p =
                       [newIngress (vars s) pod (V1Service.name service) q])
                ∧ ((∀ service, service ∈ servicesToCreate p →
                      port0 service ≠ Some q) →
                   ending p = Fail noMatchError ∧ ingressesToCreate p = []))
       end
     ∧ (ending p ≠ Submit →
          log (deployToKube s).1 = log s ∧ (deployToKube s).2 = Returned tt).
Proof.
  intros Hpod Hname Hingress.
  destruct (plan_ingress_cases (vars s) pod Hname Hingress) as (p & Hp & Hcases).
  exists p. split_and!; [done..|]. by eapply deployToKube_no_call.
Qed.

(** The [catch] block, according to the fate of its telemetry event. *)
Lemma rollback_eq previousPod properties error (s : State W) :
  rollback previousPod properties error s =
  match telemetryTrack "deployToKube"
          (properties ++ [("errorMessage", Js.Str error)]) (world s) with
  | (w, Returned _) =>
      (mkState
         (set_deployFinished false
            (set_deployStarted false
               (set_deployError error (set_bodyPod previousPod (vars s)))))
         (heap s) (timers s) (timerSeq s) w
         (log s ++ [(TelemetryTrack "deployToKube"
                       (properties ++ [("errorMessage", Js.Str error)]), true)]),
       Returned tt)
  | (w, Threw e) =>
      (mkState (set_bodyPod previousPod (vars s))
         (heap s) (timers s) (timerSeq s) w
         (log s ++ [(TelemetryTrack "deployToKube"
                       (properties ++ [("errorMessage", Js.Str error)]), false)]),
       Threw e)
  end.
Proof.
  destruct (telemetryTrack "deployToKube" _ (world s)) as [w [[]|e]] eqn:Hevent;
    unfold rollback, mbind, Exec_bind, assign, perform; cbn;
    by rewrite Hevent.
Qed.

(** A submission: the calls made, the manifest left in the form, and
    the variables, whether every call returned or one of them threw. *)
Lemma deployToKube_submits (s : State W) pod p :
  manifest s = Some pod →
  plan (vars s) pod = Returned p →
  ending p = Submit →
  ∃ entries ok,
    sequential
      (creationCalls (currentNamespace (vars s))
         (sanitize (vars s) (dateCreationTimestamp Date_parse pod)) p
       ++ [TelemetryTrack "deployToKube" (eventProperties (vars s))])
      entries ok
    ∧ manifest (deployToKube s).1
      = Some (sanitize (vars s) (dateCreationTimestamp Date_parse pod))
    ∧ bodyPod (vars (deployToKube s).1) = bodyPod (vars s)
    ∧ if ok then
        log (deployToKube s).1 = log s ++ entries
        ∧ (deployToKube s).2 = Returned tt
        ∧ deployStarted (vars (deployToKube s).1) = true
        ∧ deployFinished (vars (deployToKube s).1) = false
        ∧ deployError (vars (deployToKube s).1) = ""
        ∧ timers (deployToKube s).1
          = <[timerSeq s := 2000]> (timers (resetState s))
        ∧ updatePodInterval (vars (deployToKube s).1) = Some (timerSeq s)
      else
        ∃ error reported,
          log (deployToKube s).1
          = log s ++ entries
            ++ [(TelemetryTrack "deployToKube"
                   (eventProperties (vars s) ++ [("errorMessage", Js.Str error)]),
                 reported)]
          ∧ timers (deployToKube s).1 = timers (resetState s)
          ∧ updatePodInterval (vars (deployToKube s).1)
            = updatePodInterval (vars s)
          ∧ if reported then
              (deployToKube s).2 = Returned tt
              ∧ deployStarted (vars (deployToKube s).1) = false
              ∧ deployFinished (vars (deployToKube s).1) = false
              ∧ deployError (vars (deployToKube s).1) = error
            else
              (∃ e, (deployToKube s).2 = Threw e)
              ∧ deployStarted (vars (deployToKube s).1) = true.
Proof.
  intros (l & Hbody & Hl)%manifest_Some Hp Hending.
  rewrite (deployToKube_eq _ _ s l pod Hbody Hl), Hp, Hending.
  set (s0 := set_heap (alter (dateCreationTimestamp Date_parse) l (heap s))
                      (resetState s)).
  assert (Hl0 : heap s0 !! l = Some (dateCreationTimestamp Date_parse pod)).
  { simpl. by rewrite lookup_alter_eq, Hl. }
  destruct (submit_cases ensureRestrictedSecurityContext s0 l p
              (eventProperties (vars s)) _ Hl0)
    as (s2 & r & entries & Hlog & Hseq & Hheap & Htimers & Hseq' & Hcore & ->).
  exists entries, (succeeded r).
  split; [exact Hseq|].
  assert (Hbody2 : bodyPod (vars s2) = Some l).
  { apply (f_equal bodyPod) in Hcore. simpl in Hcore. congruence. }
  assert (Hl2 : heap s2 !! l
                = Some (sanitize (vars s) (dateCreationTimestamp Date_parse pod))).
  { rewrite Hheap, lookup_alter_eq, Hl0. done. }
  destruct r as [[]|error]; simpl.
  - unfold manifest. simpl. rewrite Hbody2. simpl. rewrite Hbody.
    split_and!; try done.
    + by apply (f_equal deployStarted) in Hcore.
    + by apply (f_equal deployFinished) in Hcore.
    + by apply (f_equal deployError) in Hcore.
    + by rewrite Htimers, Hseq'.
    + by rewrite Hseq'.
  - rewrite rollback_eq.
    destruct (telemetryTrack "deployToKube" _ (world s2)) as [w [[]|e]];
      unfold manifest; cbn [fst snd vars heap log timers bodyPod
        set_deployFinished set_deployStarted set_deployError set_bodyPod
        deployStarted deployFinished deployError updatePodInterval mbind
        option_bind];
      rewrite ?Hl2, Hbody; (split_and!; try done);
      exists error; [exists true|exists false];
      cbn [fst snd vars heap log timers bodyPod
        set_deployFinished set_deployStarted set_deployError set_bodyPod
        deployStarted deployFinished deployError updatePodInterval];
      rewrite Hlog, <- ?app_assoc; (split_and!; try done).
    + by apply (f_equal updatePodInterval) in Hcore.
    + by apply (f_equal updatePodInterval) in Hcore.
    + by eexists.
    + by apply (f_equal deployStarted) in Hcore.
Qed.

(** The creation calls of a submission, within what it adds to the log. *)
Lemma deployToKube_creations (s : State W) pod p :
  manifest s = Some pod →
  plan (vars s) pod = Returned p →
  ending p = Submit →
  ∃ made entries ok,
    log (deployToKube s).1 = log s ++ made
    ∧ creations made = entries
    ∧ sequential
        (creationCalls (currentNamespace (vars s))
           (sanitize (vars s) (dateCreationTimestamp Date_parse pod)) p)
        entries ok.
Proof.
  intros Hpod Hp Hending.
  destruct (deployToKube_submits s pod p Hpod Hp Hending)
    as (entries & ok & Hseq & _ & _ & Hcases).
  pose proof (creationCalls_create (currentNamespace (vars s))
    (sanitize (vars s) (dateCreationTimestamp Date_parse pod)) p) as Hcreate.
  apply sequential_snoc in Hseq
    as [entries1 [(Hseq1 & -> & ->)|(Hseq1 & ->)]].
  - destruct Hcases as (error & reported & Hlog & _).
    exists (entries1 ++ [(TelemetryTrack "deployToKube"
              (eventProperties (vars s) ++ [("errorMessage", Js.Str error)]),
              reported)]), entries1, false.
    split_and!; [done| |done].
    rewrite creations_app. unfold creations at 2. simpl.
    by rewrite app_nil_r, (sequential_creates _ _ _ Hcreate Hseq1).
  - destruct ok.
    + destruct Hcases as (Hlog & _). eexists _, entries1, true.
      split_and!; [done| |done].
      rewrite creations_app. unfold creations at 2. simpl.
      by rewrite app_nil_r, (sequential_creates _ _ _ Hcreate Hseq1).
    + destruct Hcases as (error & reported & Hlog & _).
      eexists _, entries1, true.
      split_and!; [done| |done].
      rewrite !creations_app. unfold creations at 2 3. simpl.
      by rewrite !app_nil_r, (sequential_creates _ _ _ Hcreate Hseq1).
Qed.

(** C5. In every submission attempt the resource-creation calls are made
    in the order Pod, Services in plan order, Routes in plan order,
    Ingress, each after the one before has returned; a call that throws
    is the last creation call of the attempt, and no planned call is made
    twice: the creation calls made are an initial segment of the ordered
    plan, and the whole of it when every call returns. *)
Theorem creation_calls_in_sequence (s : State W) (pod : V1Pod.t) :
  manifest s = Some pod →
  ∃ p made,
    plan (vars s) pod = Returned p
    ∧ log (deployToKube s).1 = log s ++ made
    ∧ (creations made).*1 `prefix_of`
        creationCalls (currentNamespace (vars s))
          (sanitize (vars s) (dateCreationTimestamp Date_parse pod)) p
    ∧ (∀ i call, creations made !! i = Some (call, false) →
         S i = length (creations made))
    ∧ (ending p = Submit →
       Forall (λ entry, entry.2 = true) (creations made) →
       (creations made).*1 =
         creationCalls (currentNamespace (vars s))
           (sanitize (vars s) (dateCreationTimestamp Date_parse pod)) p)
    ∧ (ending p ≠ Submit → made = []).
Proof.
  intros Hpod. destruct (plan_returns (vars s) pod) as [p Hp]. exists p.
  assert (ending p = Submit ∨ ending p ≠ Submit) as [Hending|Hending]
    by (destruct (ending p); eauto).
  - destruct (deployToKube_creations s pod p Hpod Hp Hending)
      as (made & entries & ok & Hlog & Hmade & Hseq).
    exists made. rewrite Hmade. split_and!; [done|done| | | |done].
    + by eapply sequential_prefix.
    + intros i call Hi. by eapply sequential_threw_last.
    + intros _ Hall. destruct ok.
      * rewrite (sequential_all _ _ Hseq), <- list_fmap_compose.
        by rewrite list_fmap_id.
      * destruct (sequential_threw_entry _ _ Hseq) as [call Hlast].
        apply last_Some in Hlast as [entries' ->].
        apply Forall_app in Hall as [_ Hall]. by inversion Hall.
  - destruct (deployToKube_no_call s pod p Hpod Hp Hending) as [Hlog _].
    exists []. rewrite app_nil_r. split_and!; [done|done| |done|done|done].
    apply prefix_nil.
Qed.


(** After a submission, whether it succeeded or not, the form holds the
    sanitized manifest: the [catch] block assigns to [bodyPod] the
    reference it already holds, and the object has been mutated. *)
Lemma failed_submission_keeps_sanitized_manifest (s : State W) pod p :
  manifest s = Some pod →
  plan (vars s) pod = Returned p →
  ending p = Submit →
  manifest (deployToKube s).1
  = Some (sanitize (vars s) (dateCreationTimestamp Date_parse pod)).
Proof.
  intros Hpod Hp Hending.
  by destruct (deployToKube_submits s pod p Hpod Hp Hending)
    as (entries & ok & _ & ? & _).
Qed.

(** The form after a handler and the reactive block. *)
Lemma manifest_flush (m : Exec W unit) (s : State W) :
  manifest (flush m s) = syncLabels <$> manifest (m s).1.
Proof.
  unfold flush, reactive, withVars, manifest.
  destruct (bodyPod (vars (m s).1)) as [l|] eqn:Hbody; simpl; rewrite Hbody; [|done].
  simpl. by rewrite lookup_alter_eq.
Qed.

Lemma appLabel_syncLabels pod :
  is_Some (V1Pod.metadata pod ≫= V1ObjectMeta.labels) →
  appLabel (syncLabels pod) = Some (default "" (V1Pod.name pod)).
Proof.
  unfold appLabel, syncLabels, V1Pod.name.
  destruct pod as [[[name namespace [labels|] creationTimestamp]|] spec status];
    simpl; intros [? ?]; try done.
  by rewrite lookup_insert_eq.
Qed.

Lemma syncLabels_without_labels pod :
  V1Pod.metadata pod ≫= V1ObjectMeta.labels = None →
  syncLabels pod = pod.
Proof.
  unfold syncLabels.
  by destruct pod as [[[name namespace [labels|] creationTimestamp]|] spec status].
Qed.

Lemma labels_syncLabels pod :
  is_Some (V1Pod.metadata (syncLabels pod) ≫= V1ObjectMeta.labels)
  ↔ is_Some (V1Pod.metadata pod ≫= V1ObjectMeta.labels).
Proof.
  unfold syncLabels.
  destruct pod as [[[name namespace [labels|] creationTimestamp]|] spec status];
    simpl; split; intros [? ?]; done.
Qed.

Lemma name_syncLabels pod : V1Pod.name (syncLabels pod) = V1Pod.name pod.
Proof.
  unfold syncLabels, V1Pod.name.
  by destruct pod as [[[name namespace [labels|] creationTimestamp]|] spec status].
Qed.

(** C7. When [metadata.labels] exists, after the pod name has been set
    to any value, the empty string included, and the reactive block has
    run, [metadata.labels.app] equals [metadata.name]; after any handler,
    [app] equals the name, or the empty string for an absent name; when
    [metadata.labels] does not exist the reactive block leaves the
    manifest as it is, without labels. *)
Theorem label_app_follows_name (s : State W) (pod : V1Pod.t) :
  manifest s = Some pod →
  (is_Some (V1Pod.metadata pod ≫= V1ObjectMeta.labels) →
     (∀ value pod',
        manifest (handle ensureRestrictedSecurityContext Date_parse
                         (InputPodName value) s) = Some pod' →
        V1Pod.name pod' = Some value ∧ appLabel pod' = Some value)
     ∧ appLabel (syncLabels pod) = Some (default "" (V1Pod.name pod)))
  ∧ (∀ e pod',
       manifest (handle ensureRestrictedSecurityContext Date_parse e s)
       = Some pod' →
       is_Some (V1Pod.metadata pod' ≫= V1ObjectMeta.labels) →
       appLabel pod' = Some (default "" (V1Pod.name pod')))
  ∧ (V1Pod.metadata pod ≫= V1ObjectMeta.labels = None →
     syncLabels pod = pod
     ∧ ∀ value,
         manifest (handle ensureRestrictedSecurityContext Date_parse
                          (InputPodName value) s)
         = Some (setName value pod)
         ∧ V1Pod.metadata (setName value pod) ≫= V1ObjectMeta.labels = None).
Proof.
  intros Hpod. destruct (manifest_Some s pod Hpod) as (l & Hbody & Hl).
  assert (Hinput : ∀ value,
    manifest (handle ensureRestrictedSecurityContext Date_parse
                     (InputPodName value) s)
    = Some (syncLabels (setName value pod))).
  { intros value. simpl. rewrite manifest_flush.
    unfold inputPodName, withVars, manifest. rewrite Hbody. simpl.
    rewrite Hbody. simpl. by rewrite lookup_alter_eq, Hl. }
  split_and!.
  - intros Hlabels. split; [|by apply appLabel_syncLabels].
    intros value pod'. rewrite Hinput. intros [= <-].
    assert (V1Pod.name (setName value pod) = Some value
            ∧ is_Some (V1Pod.metadata (setName value pod) ≫= V1ObjectMeta.labels))
      as [Hname Hlabels'].
    { unfold setName, V1Pod.name. destruct Hlabels as [labels Hlabels].
      destruct pod as [[[? ? ? ?]|] ? ?]; simpl in *; [|done]. eauto. }
    rewrite name_syncLabels, appLabel_syncLabels, Hname by done. done.
  - intros e pod' Hpod' Hlabels.
    assert (∃ m, handle ensureRestrictedSecurityContext Date_parse e s
                 = flush m s) as [m Hm] by (destruct e; by eexists).
    rewrite Hm, manifest_flush in Hpod'.
    destruct (manifest (m s).1) as [pod0|]; [|done].
    injection Hpod' as <-. rewrite name_syncLabels.
    apply appLabel_syncLabels. by apply labels_syncLabels.
  - intros Hnone. split; [by apply syncLabels_without_labels|].
    intros value. rewrite Hinput.
    assert (V1Pod.metadata (setName value pod) ≫= V1ObjectMeta.labels = None)
      as Hnone'.
    { unfold setName. destruct pod as [[[? ? ? ?]|] ? ?]; simpl in *; done. }
    by rewrite syncLabels_without_labels.
Qed.

Lemma pushPorts_fold containers array :
  foldl pushPorts array containers
  = array ++ (V1ContainerPort.hostPort <$>
                (container ← containers; default [] (V1Container.ports container))).
Proof.
  revert array. induction containers as [|container containers IH]; intros array.
  - by rewrite app_nil_r.
  - simpl foldl. rewrite IH, bind_cons, fmap_app, app_assoc. f_equal.
    unfold pushPorts. generalize (default [] (V1Container.ports container)).
    intros ports. revert array.
    induction ports as [|port ports IHports]; intros array; simpl.
    + by rewrite app_nil_r.
    + by rewrite IHports, <- app_assoc.
Qed.

(** [onMount], in one step. *)
Lemma onMount_eq parsed (s : State W) :
  onMount parsed s =
  (mkState
     (set_containerPortArray
        (containerPortArray (vars s)
         ++ (V1ContainerPort.hostPort <$> V1Pod.portEntries parsed))
        (set_bodyPod (Some (fresh (dom (heap s)))) (vars s)))
     (alter (forEachContainer setPullPolicy) (fresh (dom (heap s)))
            (<[fresh (dom (heap s)) := parsed]> (heap s)))
     (timers s) (timerSeq s) (world s) (log s),
   Returned tt).
Proof.
  unfold onMount, alloc, mbind, Exec_bind, assign, deref, mutate. cbn.
  rewrite lookup_insert_eq. cbn. by rewrite pushPorts_fold.
Qed.

Lemma manifest_onMount parsed (s : State W) :
  manifest (onMount parsed s).1 = Some (forEachContainer setPullPolicy parsed).
Proof.
  rewrite onMount_eq. unfold manifest. cbn.
  by rewrite lookup_alter_eq, lookup_insert_eq.
Qed.

(** The host ports of the exposed entries are among the options. *)
Lemma planned_host_port c pod service q :
  service ∈ (planServices c pod).1 → port0 service = Some q →
  Some q ∈ (V1ContainerPort.hostPort <$> V1Pod.portEntries pod).
Proof.
  rewrite planServices_eq. destruct (deployUsingServices c); simpl.
  - intros (port & Hport & Hsome)%list_elem_of_omap Hq.
    apply serviceOf_port0 in Hsome as (Hport0 & _). rewrite Hq in Hport0.
    rewrite Hport0. by apply list_elem_of_fmap_2.
  - by intros ?%elem_of_nil.
Qed.


(** ** The status poller *)

(** One firing of the timer, case by case. *)
Lemma poll_eq (s : State W) :
  poll s =
  match createdPod (vars s) ≫= V1Pod.name,
        createdPod (vars s) ≫= V1Pod.namespace with
  | Some name, Some namespace =>
      if Js.truthy_string (Some name) && Js.truthy_string (Some namespace) then
        match kubernetesReadNamespacedPod name namespace (world s) with
        | (w, Returned updatedPod) =>
            if bool_decide (V1Pod.phase updatedPod = Some "Running") then
              (mkState
                 (set_deployFinished true
                    (set_createdPod (Some updatedPod) (vars s)))
                 (heap s) (cancelled s) (timerSeq s)
                 (telemetryTrack "deployToKube.running"
                    (runningEvent (vars s)) w).1
                 (log s ++ [(ReadPod name namespace, true)]
                  ++ [(TelemetryTrack "deployToKube.running"
                         (runningEvent (vars s)),
                       succeeded (telemetryTrack "deployToKube.running"
                                    (runningEvent (vars s)) w).2)]),
               Returned tt)
            else
              (mkState (set_createdPod (Some updatedPod) (vars s))
                 (heap s) (timers s) (timerSeq s) w
                 (log s ++ [(ReadPod name namespace, true)]),
               Returned tt)
        | (w, Threw e) =>
            (mkState (vars s) (heap s) (timers s) (timerSeq s) w
               (log s ++ [(ReadPod name namespace, false)]),
             Returned tt)
        end
      else (s, Returned tt)
  | _, _ => (s, Returned tt)
  end.
Proof.
  unfold poll, tryCatch, updatePod, withVars.
  destruct (createdPod (vars s) ≫= V1Pod.name) as [name|]; [|done].
  destruct (createdPod (vars s) ≫= V1Pod.namespace) as [namespace|]; [|done].
  destruct (Js.truthy_string (Some name) && Js.truthy_string (Some namespace));
    [|done].
  unfold mbind, Exec_bind, perform, assign. cbn.
  destruct (kubernetesReadNamespacedPod name namespace (world s))
    as [w [updatedPod|e]]; cbn; [|done].
  destruct (bool_decide (V1Pod.phase updatedPod = Some "Running")); cbn; [|done].
  unfold clearInterval, cancelled, runningEvent. cbn.
  destruct (updatePodInterval (vars s)); cbn;
    destruct (telemetryTrack _ _ w) as [w' [[]|e]]; cbn;
    by rewrite <- app_assoc.
Qed.

(** ** The pull policy *)

Lemma pullsIfNotPresent_policies pod pod' :
  pullPolicies pod' = pullPolicies pod →
  pullsIfNotPresent pod → pullsIfNotPresent pod'.
Proof.
  unfold pullsIfNotPresent, pullPolicies. intros Heq H.
  apply (Forall_fmap V1Container.imagePullPolicy
                     (λ policy, policy = Some "IfNotPresent")).
  rewrite Heq. by apply Forall_fmap.
Qed.

Lemma pullPolicies_syncLabels pod : pullPolicies (syncLabels pod) = pullPolicies pod.
Proof.
  unfold syncLabels.
  by destruct pod as [[[name namespace [labels|] creationTimestamp]|] spec status].
Qed.

Lemma pullPolicies_setName value pod :
  pullPolicies (setName value pod) = pullPolicies pod.
Proof. unfold setName. by destruct pod as [[[? ? ? ?]|] ? ?]. Qed.

Lemma pullPolicies_dateCreationTimestamp pod :
  pullPolicies (dateCreationTimestamp Date_parse pod) = pullPolicies pod.
Proof.
  unfold dateCreationTimestamp. destruct pod as [[[? ? ? time]|] ? ?]; [|done].
  simpl. by destruct (Js.truthy_time time).
Qed.

(** The removal of the host fields leaves the pull policies as they are. *)
Lemma pullPolicies_removeHostFields c pod :
  pullPolicies (removeHostFields c pod) = pullPolicies pod.
Proof.
  unfold removeHostFields, deleteVolumes, forEachContainer, pullPolicies,
    V1Pod.containers.
  destruct pod as [metadata [[containers [volumes|]]|] status];
    destruct (deployUsingServices c); simpl; try done;
    by rewrite <- list_fmap_compose.
Qed.

(** Line 105 sets the policy of every container, whatever it was. *)
Lemma pullsIfNotPresent_onMount parsed :
  pullsIfNotPresent (forEachContainer setPullPolicy parsed).
Proof.
  unfold pullsIfNotPresent, forEachContainer, V1Pod.containers.
  destruct parsed as [metadata [[containers volumes]|] status]; simpl; [|done].
  by apply Forall_fmap, Forall_true.
Qed.

Lemma log_flush (m : Exec W unit) (s : State W) : log (flush m s) = log (m s).1.
Proof.
  unfold flush, reactive, withVars. by destruct (bodyPod (vars (m s).1)).
Qed.

Lemma pullInvariant_flush (m : Exec W unit) (s : State W) :
  pullInvariant (m s).1 → pullInvariant (flush m s).
Proof.
  unfold pullInvariant, submitted. rewrite manifest_flush, log_flush.
  intros [Hlog Hpod]. split; [done|].
  destruct (manifest (m s).1) as [pod|]; [|done]. simpl in *.
  by eapply pullsIfNotPresent_policies; [apply pullPolicies_syncLabels|].
Qed.

Lemma submitted_sequential (s s' : State W) namespace pod p event entries ok :
  log s' = log s ++ entries →
  sequential (creationCalls namespace pod p ++ [event]) entries ok →
  Forall pullsIfNotPresent (submitted s) →
  pullsIfNotPresent pod →
  (∀ ns' pod', event ≠ CreatePod ns' pod') →
  Forall pullsIfNotPresent (submitted s').
Proof.
  intros Hlog Hseq Hs Hpod Hevent. unfold submitted. rewrite Hlog, omap_app.
  apply Forall_app. split; [done|].
  apply Forall_forall. intros pod' (entry & Hentry & Hcall)%list_elem_of_omap.
  apply sequential_prefix in Hseq as [rest Hrest].
  assert (entry.1 ∈ creationCalls namespace pod p ++ [event]) as Hin.
  { rewrite Hrest. apply elem_of_app. left. by apply list_elem_of_fmap_2. }
  destruct (entry.1) as [ns' pod''| | | | |] eqn:Hentry1; try done.
  injection Hcall as ->.
  unfold creationCalls in Hin.
  rewrite elem_of_app, elem_of_cons, !elem_of_app, !list_elem_of_fmap,
    list_elem_of_singleton in Hin.
  destruct Hin as [[Heq|[(? & ? & _)|[(? & ? & _)|(? & ? & _)]]]|Heq]; try done.
  - by injection Heq as _ ->.
  - by destruct (Hevent ns' pod').
Qed.

Section Policy.

(** The security posture does not change the pull policy. *)
Hypothesis policy_kept :
  ∀ pod, pullsIfNotPresent pod →
         pullsIfNotPresent (ensureRestrictedSecurityContext pod).

Lemma pullsIfNotPresent_sanitize c pod :
  pullsIfNotPresent pod → pullsIfNotPresent (sanitize c pod).
Proof.
  intros Hpod. rewrite sanitize_eq.
  assert (pullsIfNotPresent (removeHostFields c pod)) as Hremoved.
  { by eapply pullsIfNotPresent_policies;
      [apply pullPolicies_removeHostFields|]. }
  destruct (deployUsingRestrictedSecurityContext c); [|done].
  by apply policy_kept.
Qed.

Lemma pullInvariant_deployToKube (s : State W) :
  pullInvariant s → pullInvariant (deployToKube s).1.
Proof.
  intros [Hlog Hform]. destruct (manifest s) as [pod|] eqn:Hpod; last first.
  { rewrite deployToKube_undefined by done. split; [done|].
    unfold manifest in *. simpl. by rewrite Hpod. }
  simpl in Hform.
  destruct (plan_returns (vars s) pod) as [p Hp].
  assert (ending p = Submit ∨ ending p ≠ Submit) as [Hending|Hending]
    by (destruct (ending p); eauto).
  - assert (pullsIfNotPresent
              (sanitize (vars s) (dateCreationTimestamp Date_parse pod)))
      as Hsanitized.
    { apply pullsIfNotPresent_sanitize.
      by eapply pullsIfNotPresent_policies;
        [apply pullPolicies_dateCreationTimestamp|]. }
    destruct (deployToKube_submits s pod p Hpod Hp Hending)
      as (entries & ok & Hseq & Hmanifest & _ & Hcases).
    split; [|by rewrite Hmanifest].
    destruct ok.
    + destruct Hcases as (Hentries & _).
      by eapply submitted_sequential.
    + destruct Hcases as (error & reported & Hentries & _).
      rewrite app_assoc in Hentries.
      unfold submitted. rewrite Hentries, omap_app. simpl.
      rewrite app_nil_r.
      by eapply (submitted_sequential s (mkState (vars s) (heap s) (timers s)
                   (timerSeq s) (world s) (log s ++ entries))).
  - destruct (manifest_Some s pod Hpod) as (l & Hbody & Hl).
    rewrite (deployToKube_eq _ _ s l pod Hbody Hl), Hp.
    unfold pullInvariant, manifest, submitted.
    destruct (ending p); try done; simpl; rewrite Hbody; simpl; by rewrite Hl.
Qed.

Lemma pullInvariant_handle (s : State W) e :
  pullInvariant s →
  pullInvariant (handle ensureRestrictedSecurityContext Date_parse e s).
Proof.
  intros Hs. destruct e; simpl; apply pullInvariant_flush; try done.
  - by apply pullInvariant_deployToKube.
  - destruct Hs as [Hlog Hform]. rewrite poll_eq.
    unfold pullInvariant, manifest, submitted in *.
    destruct (createdPod (vars s) ≫= V1Pod.name) as [name|]; [|done].
    destruct (createdPod (vars s) ≫= V1Pod.namespace) as [namespace|]; [|done].
    destruct (_ && _); [|done].
    destruct (kubernetesReadNamespacedPod _ _ _) as [w [updated|e]]; simpl.
    + destruct (bool_decide _); simpl; rewrite !omap_app; simpl;
        by rewrite !app_nil_r.
    + rewrite omap_app. simpl. by rewrite app_nil_r.
  - destruct Hs as [Hlog Hform]. unfold onDestroy, withVars, clearInterval.
    by destruct (updatePodInterval (vars s)).
  - destruct Hs as [Hlog Hform]. unfold inputPodName, withVars.
    unfold pullInvariant, manifest, submitted in *.
    destruct (bodyPod (vars s)) as [l|] eqn:Hbody; simpl; rewrite Hbody; [|done].
    simpl in *. split; [done|]. rewrite lookup_alter_eq.
    destruct (heap s !! l) as [pod|]; [|done]. simpl in *.
    by eapply pullsIfNotPresent_policies; [apply pullPolicies_setName|].
Qed.


End Policy.

(** ** The timer of the poller *)

Lemma cancelled_empty (s : State W) : timerInvariant s → cancelled s = ∅.
Proof.
  intros Hinv. apply map_empty. intros h. unfold cancelled.
  destruct (updatePodInterval (vars s)) as [h0|] eqn:Hh0.
  - destruct (decide (h0 = h)) as [->|Hne]; [by rewrite lookup_delete_eq|].
    rewrite lookup_delete_ne by done.
    destruct (timers s !! h) as [ms|] eqn:Hh; [|done].
    destruct (Hinv h ms Hh) as [? _]. congruence.
  - destruct (timers s !! h) as [ms|] eqn:Hh; [|done].
    destruct (Hinv h ms Hh) as [? _]. congruence.
Qed.

Lemma timers_flush (m : Exec W unit) (s : State W) :
  timers (flush m s) = timers (m s).1 ∧ vars (flush m s) = vars (m s).1.
Proof.
  unfold flush, reactive, withVars. by destruct (bodyPod (vars (m s).1)).
Qed.

Lemma timerInvariant_flush (m : Exec W unit) (s : State W) :
  timerInvariant (m s).1 → timerInvariant (flush m s).
Proof.
  unfold timerInvariant. by destruct (timers_flush m s) as [-> ->].
Qed.

Lemma timerInvariant_empty (s : State W) : timers s = ∅ → timerInvariant s.
Proof. intros Hempty h ms. by rewrite Hempty, lookup_empty. Qed.

(** What a click on Deploy leaves of the timers. *)
Lemma timers_deployToKube (s : State W) :
  timerInvariant s →
  timers (deployToKube s).1 = ∅
  ∨ (timers (deployToKube s).1 = {[timerSeq s := 2000]}
     ∧ updatePodInterval (vars (deployToKube s).1) = Some (timerSeq s)
     ∧ deployStarted (vars (deployToKube s).1) = true).
Proof.
  intros Hinv. pose proof (cancelled_empty s Hinv) as Hcancelled.
  assert (timers (resetState s) = ∅) as Hreset by done.
  destruct (manifest s) as [pod|] eqn:Hpod; last first.
  { rewrite deployToKube_undefined by done. by left. }
  destruct (plan_returns (vars s) pod) as [p Hp].
  assert (ending p = Submit ∨ ending p ≠ Submit) as [Hending|Hending]
    by (destruct (ending p); eauto).
  - destruct (deployToKube_submits s pod p Hpod Hp Hending)
      as (entries & ok & _ & _ & _ & Hcases).
    destruct ok.
    + destruct Hcases as (_ & _ & Hstarted & _ & _ & Htimers & Hinterval).
      right. by rewrite Htimers, Hreset.
    + destruct Hcases as (error & reported & _ & Htimers & _).
      left. by rewrite Htimers.
  - destruct (manifest_Some s pod Hpod) as (l & Hbody & Hl).
    rewrite (deployToKube_eq _ _ s l pod Hbody Hl), Hp.
    left. by destruct (ending p).
Qed.

Lemma timerInvariant_handle (s : State W) e :
  timerInvariant s →
  timerInvariant (handle ensureRestrictedSecurityContext Date_parse e s).
Proof.
  intros Hinv. destruct e; simpl; apply timerInvariant_flush; try done.
  - destruct (timers_deployToKube s Hinv) as [Hempty|(Htimers & Hinterval & Hstarted)].
    + by apply timerInvariant_empty.
    + intros h ms. rewrite Htimers.
      intros [<- <-]%lookup_singleton_Some. done.
  - rewrite poll_eq.
    destruct (createdPod (vars s) ≫= V1Pod.name) as [name|]; [|done].
    destruct (createdPod (vars s) ≫= V1Pod.namespace) as [namespace|]; [|done].
    destruct (_ && _); [|done].
    destruct (kubernetesReadNamespacedPod _ _ _) as [w [updated|e]]; [|done].
    destruct (bool_decide _); [|done].
    apply timerInvariant_empty. by apply cancelled_empty.
  - apply timerInvariant_empty. unfold onDestroy, withVars, clearInterval.
    pose proof (cancelled_empty s Hinv) as Hcancelled. unfold cancelled in *.
    by destruct (updatePodInterval (vars s)).
  - unfold inputPodName, withVars. by destruct (bodyPod (vars s)).
Qed.

Lemma reachable_timerInvariant parsed (s : State W) :
  reachable ensureRestrictedSecurityContext Date_parse parsed s →
  timerInvariant s.
Proof.
  induction 1 as [namespace routeGroupSupported w|s e _ IH Henabled].
  - apply timerInvariant_flush, timerInvariant_empty. by rewrite onMount_eq.
  - by apply timerInvariant_handle.
Qed.

(** Once no timer is active and a submission has started, no event
    starts one. *)
Lemma quiet_step (s s' : State W) :
  quiet s → step ensureRestrictedSecurityContext Date_parse s s' → quiet s'.
Proof.
  intros [Htimers Hstarted] (e & Henabled & ->). unfold quiet.
  destruct e; simpl in *;
    match goal with
    | |- context [flush ?m s] => destruct (timers_flush m s) as [-> ->]
    end; try done.
  - by rewrite Hstarted in Henabled.
  - rewrite Htimers, lookup_empty in Henabled.
    apply bool_decide_eq_true in Henabled. by destruct Henabled.
  - unfold onDestroy, withVars, clearInterval.
    destruct (updatePodInterval (vars s)); simpl; [|done].
    by rewrite Htimers, delete_empty.
  - unfold inputPodName, withVars. by destruct (bodyPod (vars s)).
Qed.

Lemma quiet_steps (s s' : State W) :
  quiet s → rtc (step ensureRestrictedSecurityContext Date_parse) s s' → quiet s'.
Proof. intros Hquiet Hsteps. induction Hsteps; eauto using quiet_step. Qed.


End Claims.

(** * The component on examples *)

(** ** The manifest after a failed submission *)

(** C1. The code at a failing input: the manifest [web] is loaded, Deploy
    is clicked and the creation of the Pod is rejected. The [catch] block
    has run, yet the manifest of the form is not the one it held before
    sanitization: its volumes, its volume mounts and its host port are
    gone. *)
Theorem rollback_keeps_sanitized_manifest :
  manifest (mounted web [false]) = Some (loaded web)
  ∧ plan (vars (mounted web [false])) (loaded web)
    = Returned (mkPlan [newService (vars (mounted web [false])) (loaded web)
                          (V1ContainerPort.mk 80 (Some 8080) None) 8080]
                       [] [] Submit)
  ∧ (deployToKube samePod epoch (mounted web [false])).2 = Returned tt
  ∧ log (deployToKube samePod epoch (mounted web [false])).1
    = [(CreatePod "default" (removeHostFields (vars (mounted web [false])) (loaded web)),
        false);
       (TelemetryTrack "deployToKube"
          [("useServices", Js.Bool true); ("useRoutes", Js.Bool true);
           ("createIngress", Js.Bool false);
           ("errorMessage", Js.Str "rejected")], true)]
  ∧ deployError (vars (deployToKube samePod epoch (mounted web [false])).1)
    = "rejected"
  ∧ manifest (deployToKube samePod epoch (mounted web [false])).1
    = Some (removeHostFields (vars (mounted web [false])) (loaded web))
  ∧ manifest (deployToKube samePod epoch (mounted web [false])).1
    ≠ manifest (mounted web [false])
  ∧ hostPorts (loaded web) = [8080]
  ∧ hostPorts <$> manifest (deployToKube samePod epoch (mounted web [false])).1
    = Some []
  ∧ manifest (mounted web [false]) ≫= V1Pod.volumes
    = Some [V1Volume.mk "data" (Some "/tmp/data")]
  ∧ manifest (deployToKube samePod epoch (mounted web [false])).1
      ≫= V1Pod.volumes = None.
Proof.
  split_and!; try (vm_compute; reflexivity).
  vm_compute. intros [=].
Qed.

(** ** A pod without a name *)

(** C2, as stated, fails for a manifest without [metadata.name]: an
    ingress is requested and no service is planned, yet [deployToKube]
    gives no warning; it returns with [deployStarted] still true. *)
Lemma unnamed_pod_gets_no_ingress_warning :
  manifest (withIngress unnamed []) = Some (loaded unnamed)
  ∧ createIngress (vars (withIngress unnamed [])) = true
  ∧ plan (vars (withIngress unnamed [])) (loaded unnamed)
    = Returned (mkPlan [] [] [] Skip)
  ∧ (deployToKube samePod epoch (withIngress unnamed [])).2 = Returned tt
  ∧ deployWarning (vars (deployToKube samePod epoch (withIngress unnamed [])).1) = ""
  ∧ deployStarted (vars (deployToKube samePod epoch (withIngress unnamed [])).1)
    = true.
Proof. split_and!; vm_compute; reflexivity. Qed.

(** C3, as stated, fails for a manifest without [metadata.name]: one
    non-empty host port, [useServices] true, and no service planned. *)
Lemma unnamed_pod_plans_no_service :
  hostPorts unnamed = [8080]
  ∧ deployUsingServices (vars (mounted unnamed [])) = true
  ∧ plan (vars (mounted unnamed [])) unnamed = Returned (mkPlan [] [] [] Skip).
Proof. split_and!; vm_compute; reflexivity. Qed.

(** C4, as stated, fails for a manifest without [metadata.name]: a
    non-empty host port is present, and planning before sanitization and
    planning after it are the same. *)
Lemma unnamed_pod_plans_the_same_when_sanitized :
  Exists (λ port, exposed port = true) (V1Pod.portEntries unnamed)
  ∧ deployUsingServices (vars (mounted unnamed [])) = true
  ∧ plan (vars (mounted unnamed [])) unnamed
    = plan (vars (mounted unnamed []))
           (removeHostFields (vars (mounted unnamed [])) unnamed).
Proof.
  split_and!; [|vm_compute; reflexivity..].
  apply Exists_cons_hd. reflexivity.
Qed.


(** ** The theorems at work *)

Lemma ingress_planning_cases_witness :
  manifest (withIngress web []) = Some (loaded web)
  ∧ Js.truthy_string (V1Pod.name (loaded web)) = true
  ∧ createIngress (vars (withIngress web [])) = true
  ∧ ∃ p, plan (vars (withIngress web [])) (loaded web) = Returned p
       ∧ ingressesToCreate p
         = [newIngress (vars (withIngress web [])) (loaded web) "web-8080" 8080].
Proof.
  assert (H1 : manifest (withIngress web []) = Some (loaded web))
    by (vm_compute; reflexivity).
  assert (H2 : Js.truthy_string (V1Pod.name (loaded web)) = true) by reflexivity.
  assert (H3 : createIngress (vars (withIngress web [])) = true) by reflexivity.
  split_and!; [exact H1|exact H2|exact H3|].
  destruct (ingress_planning_cases samePod epoch (withIngress web []) (loaded web)
              H1 H2 H3) as (p & Hp & Hcases & _).
  exists p. split; [exact Hp|].
  vm_compute in Hp. injection Hp as <-.
  destruct Hcases as (servicePort & Hports & _ & Hingresses).
  injection Hports as <-. exact Hingresses.
Defined.

Lemma services_planned_per_host_port_witness :
  V1Pod.name twoPorts = Some "shop"
  ∧ "shop" ≠ ""
  ∧ ∃ p, plan (vars (mounted twoPorts [])) twoPorts = Returned p
       ∧ length (servicesToCreate p) = 2%nat
       ∧ V1Service.name <$> servicesToCreate p = ["shop-8080"; "shop-9090"].
Proof.
  assert (H1 : V1Pod.name twoPorts = Some "shop") by reflexivity.
  assert (H2 : "shop" ≠ "") by discriminate.
  split_and!; [exact H1|exact H2|].
  destruct (services_planned_per_host_port (vars (mounted twoPorts [])) twoPorts
              "shop" H1 H2) as (p & Hp & Hservices & _).
  exists p. split; [exact Hp|].
  destruct (Hservices eq_refl) as (Hserves & Hlength & _).
  split; [exact Hlength|].
  vm_compute in Hp. injection Hp as <-. reflexivity.
Defined.

Lemma sanitized_manifest_plans_no_service_witness :
  deployUsingServices (vars (mounted web [])) = true
  ∧ Js.truthy_string (V1Pod.name web) = true
  ∧ Exists (λ port, exposed port = true) (V1Pod.portEntries web)
  ∧ ∃ p p', plan (vars (mounted web [])) web = Returned p
          ∧ plan (vars (mounted web []))
                 (removeHostFields (vars (mounted web [])) web) = Returned p'
          ∧ servicesToCreate p ≠ servicesToCreate p'.
Proof.
  assert (H1 : deployUsingServices (vars (mounted web [])) = true) by reflexivity.
  assert (H2 : Js.truthy_string (V1Pod.name web) = true) by reflexivity.
  assert (H3 : Exists (λ port, exposed port = true) (V1Pod.portEntries web))
    by (apply Exists_cons_hd; reflexivity).
  split_and!; [exact H1|exact H2|exact H3|].
  destruct (sanitized_manifest_plans_no_service (vars (mounted web [])) web H1)
    as (_ & _ & _ & _ & Hdiffer).
  exact (Hdiffer H2 H3).
Defined.

Lemma creation_calls_in_sequence_witness :
  manifest (mounted twoPorts [true; false]) = Some (loaded twoPorts)
  ∧ ∃ p made,
      plan (vars (mounted twoPorts [true; false])) (loaded twoPorts) = Returned p
      ∧ log (deployToKube samePod epoch (mounted twoPorts [true; false])).1
        = log (mounted twoPorts [true; false]) ++ made
      ∧ (creations made).*1 `prefix_of`
          creationCalls "default"
            (sanitize samePod (vars (mounted twoPorts [true; false]))
               (dateCreationTimestamp epoch (loaded twoPorts))) p
      ∧ (creations made).*2 = [true; false].
Proof.
  assert (H1 : manifest (mounted twoPorts [true; false]) = Some (loaded twoPorts))
    by (vm_compute; reflexivity).
  split; [exact H1|].
  destruct (creation_calls_in_sequence samePod epoch
              (mounted twoPorts [true; false]) (loaded twoPorts) H1)
    as (p & made & Hp & Hlog & Hprefix & _).
  exists p, made. split_and!; [exact Hp|exact Hlog|exact Hprefix|].
  vm_compute in Hlog. rewrite <- Hlog. reflexivity.
Defined.


Lemma label_app_follows_name_witness :
  manifest (mounted web []) = Some (loaded web)
  ∧ is_Some (V1Pod.metadata (loaded web) ≫= V1ObjectMeta.labels)
  ∧ ∃ pod', manifest (handle samePod epoch (InputPodName "") (mounted web []))
            = Some pod'
          ∧ V1Pod.name pod' = Some ""
          ∧ appLabel pod' = Some "".
Proof.
  assert (H1 : manifest (mounted web []) = Some (loaded web))
    by (vm_compute; reflexivity).
  assert (H2 : is_Some (V1Pod.metadata (loaded web) ≫= V1ObjectMeta.labels))
    by (eexists; reflexivity).
  split_and!; [exact H1|exact H2|].
  destruct (label_app_follows_name samePod epoch (mounted web []) (loaded web) H1)
    as (Hlabels & _).
  destruct (Hlabels H2) as [Hinput _].
  eexists. split; [vm_compute; reflexivity|].
  apply Hinput. vm_compute. reflexivity.
Defined.


Lemma reachable_deployed parsed script :
  enabled ClickDeploy (mounted parsed script) = true →
  reachable samePod epoch parsed (deployed parsed script).
Proof. intros Henabled. apply reachable_handle; [constructor|done]. Qed.



(** * Further properties of the code *)

(** ** The routes and the names of the planned objects *)

Lemma omap_routes c pod ports :
  Forall2 routes (omap (serviceOf c pod) ports) (omap (routeOf c pod) ports).
Proof.
  induction ports as [|port ports IH]; simpl; [constructor|].
  unfold serviceOf at 1, routeOf at 1, exposed, Js.truthy_number.
  destruct (V1ContainerPort.hostPort port) as [h|]; [|done].
  destruct (h =? 0); [done|]. simpl. constructor; [|done].
  unfold routes. simpl. split_and!; try done. by eexists.
Qed.

(** X1. For a manifest with a non-empty name, on a cluster with routes
    and with [useServices] and [useRoutes] on, one Route is planned per
    planned Service, in the same order: it has the name and the namespace of
    the service, points to it, targets the container port and terminates TLS
    at the edge. Without route support, or with [useRoutes] or [useServices]
    off, no Route is planned. *)
Theorem routes_planned_per_service (c : Component) (pod : V1Pod.t) :
  Js.truthy_string (V1Pod.name pod) = true →
  ∃ p, plan c pod = Returned p
     ∧ (deployUsingServices c && openshiftRouteGroupSupported c
        && deployUsingRoutes c = true →
          Forall2 routes (servicesToCreate p) (routesToCreate p))
     ∧ (deployUsingServices c && openshiftRouteGroupSupported c
        && deployUsingRoutes c = false →
          routesToCreate p = []).
Proof.
  intros Hname. destruct (plan_returns c pod) as [p Hp]. exists p.
  split; [done|].
  destruct (plan_named c pod p Hname Hp) as [-> ->].
  rewrite planServices_eq.
  destruct (deployUsingServices c), (openshiftRouteGroupSupported c),
    (deployUsingRoutes c); simpl; split; try done; intros _;
    apply omap_routes.
Qed.

Lemma routes_planned_per_service_witness :
  Js.truthy_string (V1Pod.name twoPorts) = true
  ∧ ∃ p, plan (vars (mountedOnOpenShift twoPorts [])) twoPorts = Returned p
       ∧ Forall2 routes (servicesToCreate p) (routesToCreate p)
       ∧ V1Route.name <$> routesToCreate p = ["shop-8080"; "shop-9090"].
Proof.
  assert (H1 : Js.truthy_string (V1Pod.name twoPorts) = true) by reflexivity.
  split; [exact H1|].
  destruct (routes_planned_per_service (vars (mountedOnOpenShift twoPorts []))
              twoPorts H1) as (p & Hp & Hroutes & _).
  exists p. split_and!; [exact Hp|exact (Hroutes eq_refl)|].
  vm_compute in Hp. injection Hp as <-. reflexivity.
Defined.

Lemma nameOfPort_inj pod : Inj (=) (=) (nameOfPort pod).
Proof.
  intros h1 h2 Heq. unfold nameOfPort in Heq.
  apply (inj _) in Heq. apply (inj _) in Heq. by apply (inj pretty).
Qed.

Lemma names_serviceOf c pod ports :
  V1Service.name <$> omap (serviceOf c pod) ports
  = nameOfPort pod <$> omap V1ContainerPort.hostPort (List.filter exposed ports).
Proof.
  induction ports as [|port ports IH]; [done|]. csimpl.
  destruct (exposed port) eqn:Hexposed.
  - destruct (serviceOf_exposed c pod port Hexposed) as [service Hservice].
    rewrite Hservice. csimpl. rewrite IH.
    apply serviceOf_port0 in Hservice as (_ & -> & _).
    unfold exposed, Js.truthy_number in Hexposed. unfold portName, nameOfPort.
    by destruct (V1ContainerPort.hostPort port).
  - by rewrite serviceOf_hidden.
Qed.

Lemma names_routeOf c pod ports :
  V1Route.name <$> omap (routeOf c pod) ports
  = nameOfPort pod <$> omap V1ContainerPort.hostPort (List.filter exposed ports).
Proof.
  induction ports as [|port ports IH]; [done|]. csimpl.
  unfold routeOf at 1. destruct (exposed port) eqn:Hexposed; [|done].
  csimpl. rewrite IH.
  unfold exposed, Js.truthy_number in Hexposed. unfold portName, nameOfPort.
  by destruct (V1ContainerPort.hostPort port).
Qed.



(** ** What sanitization and the reactive block leave alone *)

Lemma deleteHostSettings_idempotent container :
  deleteHostSettings (deleteHostSettings container) = deleteHostSettings container.
Proof.
  unfold deleteHostSettings. simpl. f_equal.
  destruct (V1Container.ports container) as [ports|]; [|done]. simpl.
  by rewrite <- list_fmap_compose.
Qed.

Lemma keptOfContainer_deleteHostSettings container :
  keptOfContainer (deleteHostSettings container) = keptOfContainer container.
Proof.
  unfold keptOfContainer, deleteHostSettings. simpl. f_equal.
  destruct (V1Container.ports container) as [ports|]; [|done]. simpl.
  by rewrite <- list_fmap_compose.
Qed.

(** X3. The removal of the host fields changes nothing else: the metadata
    and the status are kept, and so are the containers, in order, with
    their name, image and pull policy and, for each port entry, its
    container port and protocol; without [useServices] the containers are
    kept as they are; and removing the host fields twice is removing them
    once. *)
Theorem host_fields_removed_only (c : Component) (pod : V1Pod.t) :
  V1Pod.metadata (removeHostFields c pod) = V1Pod.metadata pod
  ∧ V1Pod.status (removeHostFields c pod) = V1Pod.status pod
  ∧ (is_Some (V1Pod.spec (removeHostFields c pod)) ↔ is_Some (V1Pod.spec pod))
  ∧ keptOfContainer <$> V1Pod.containers (removeHostFields c pod)
    = keptOfContainer <$> V1Pod.containers pod
  ∧ (deployUsingServices c = false →
       V1Pod.containers (removeHostFields c pod) = V1Pod.containers pod)
  ∧ removeHostFields c (removeHostFields c pod) = removeHostFields c pod.
Proof.
  unfold removeHostFields, deleteVolumes, forEachContainer, V1Pod.containers.
  destruct pod as [metadata [[containers [volumes|]]|] status];
    destruct (deployUsingServices c); simpl; split_and!; try done;
    first
      [ split; intros _; by eexists
      | rewrite <- list_fmap_compose; apply list_fmap_ext;
        intros ? container _; apply keptOfContainer_deleteHostSettings
      | do 3 f_equal; rewrite <- list_fmap_compose; apply list_fmap_ext;
        intros ? container _; apply deleteHostSettings_idempotent ].
Qed.

(** X4. The reactive block sets the label [app] and nothing else: the name,
    the namespace, the creation timestamp, the spec, the status and every
    other label are kept, the labels exist after it exactly when they did
    before, and running it twice is running it once. *)
Theorem reactive_block_sets_app_only (pod : V1Pod.t) :
  V1Pod.name (syncLabels pod) = V1Pod.name pod
  ∧ V1Pod.namespace (syncLabels pod) = V1Pod.namespace pod
  ∧ creationTimestampOf (syncLabels pod) = creationTimestampOf pod
  ∧ V1Pod.spec (syncLabels pod) = V1Pod.spec pod
  ∧ V1Pod.status (syncLabels pod) = V1Pod.status pod
  ∧ (∀ key, key ≠ "app" → labelOf key (syncLabels pod) = labelOf key pod)
  ∧ (is_Some (V1Pod.metadata (syncLabels pod) ≫= V1ObjectMeta.labels)
     ↔ is_Some (V1Pod.metadata pod ≫= V1ObjectMeta.labels))
  ∧ syncLabels (syncLabels pod) = syncLabels pod.
Proof.
  unfold syncLabels, labelOf, V1Pod.name, V1Pod.namespace.
  destruct pod as [[[name namespace [labels|] creationTimestamp]|] spec status];
    simpl; split_and!; try done.
  - intros key Hkey. by rewrite lookup_insert_ne.
  - by rewrite insert_insert_eq.
Qed.

(** ** What a submission and a firing of the timer leave *)

Section Further.

Context {W : Type} {window : Window W}.
Variable ensureRestrictedSecurityContext : V1Pod.t → V1Pod.t.
Variable Date_parse : string → Z.

Local Abbreviation deployToKube :=
  (deployToKube ensureRestrictedSecurityContext Date_parse).

(** X5. A firing of the timer never throws, whatever the bridge answers,
    and it touches neither the manifest nor [deployStarted] nor the options;
    the calls it makes create nothing; and when [createdPod] has no name or
    no namespace, it does nothing at all. *)
Theorem poll_is_harmless (s : State W) :
  (poll s).2 = Returned tt
  ∧ heap (poll s).1 = heap s
  ∧ bodyPod (vars (poll s).1) = bodyPod (vars s)
  ∧ deployStarted (vars (poll s).1) = deployStarted (vars s)
  ∧ options (vars (poll s).1) = options (vars s)
  ∧ (∃ made, log (poll s).1 = log s ++ made
           ∧ Forall (λ entry : Call * bool, creates entry.1 = false) made)
  ∧ (Js.truthy_string (createdPod (vars s) ≫= V1Pod.name)
     && Js.truthy_string (createdPod (vars s) ≫= V1Pod.namespace) = false →
     poll s = (s, Returned tt)).
Proof.
  rewrite poll_eq.
  destruct (createdPod (vars s) ≫= V1Pod.name) as [name|];
    [|split_and!; try done; exists []; by rewrite app_nil_r].
  destruct (createdPod (vars s) ≫= V1Pod.namespace) as [namespace|];
    [|split_and!; try done; exists []; by rewrite app_nil_r].
  destruct (Js.truthy_string (Some name) && Js.truthy_string (Some namespace));
    [|split_and!; try done; exists []; by rewrite app_nil_r].
  destruct (kubernetesReadNamespacedPod name namespace (world s))
    as [w [updatedPod|e]].
  - destruct (bool_decide (V1Pod.phase updatedPod = Some "Running"));
      simpl; split_and!; try done; eexists; split; try done;
      by repeat constructor.
  - simpl; split_and!; try done. eexists; split; try done.
    by repeat constructor.
Qed.

(** X6. A submission ends with its telemetry event. When every call has
    returned, the last call is the event [deployToKube] with the option
    flags, and [deployError] is empty. When a call has thrown, the last call
    is the same event with the error message added, and when that event
    returns, the message is the one shown as [deployError]. *)
Theorem submission_ends_with_its_event (s : State W) (pod : V1Pod.t) (p : Plan) :
  manifest s = Some pod →
  plan (vars s) pod = Returned p →
  ending p = Submit →
  ∃ made,
    log (deployToKube s).1 = log s ++ made
    ∧ ((Forall (λ entry : Call * bool, entry.2 = true) made
        ∧ last made
          = Some (TelemetryTrack "deployToKube" (eventProperties (vars s)), true)
        ∧ (deployToKube s).2 = Returned tt
        ∧ deployError (vars (deployToKube s).1) = "")
       ∨ (∃ call error reported,
            (call, false) ∈ made
            ∧ last made
              = Some (TelemetryTrack "deployToKube"
                        (eventProperties (vars s)
                         ++ [("errorMessage", Js.Str error)]), reported)
            ∧ (reported = true →
                 (deployToKube s).2 = Returned tt
                 ∧ deployError (vars (deployToKube s).1) = error))).
Proof.
  intros Hpod Hp Hending.
  destruct (deployToKube_submits ensureRestrictedSecurityContext Date_parse
              s pod p Hpod Hp Hending)
    as (entries & ok & Hseq & _ & _ & Hcases).
  destruct ok.
  - destruct Hcases as (Hlog & Hreturned & _ & _ & Herror & _).
    exists entries. split; [done|]. left.
    rewrite (sequential_all _ _ Hseq). split_and!; try done.
    + by apply Forall_fmap, Forall_true.
    + rewrite fmap_app. apply last_snoc.
  - destruct Hcases as (error & reported & Hlog & _ & _ & Hvars).
    eexists. split; [exact Hlog|]. right.
    destruct (sequential_threw_entry _ _ Hseq) as [call Hlast].
    apply last_Some in Hlast as [entries0 ->].
    exists call, error, reported. split_and!.
    + set_solver.
    + apply last_snoc.
    + intros ->. by destruct Hvars as (? & _ & _ & ?).
Qed.

(** X7. [deployToKube] throws in two cases only: when there is no manifest
    to read, with a [TypeError] and without any call; and when the
    telemetry event of the [catch] block is itself rejected. In both cases
    [deployStarted] is left true, so that the Deploy button is not
    offered again. *)
Theorem deployToKube_throws_only (s : State W) (e : string) :
  (deployToKube s).2 = Threw e →
  deployStarted (vars (deployToKube s).1) = true
  ∧ ((manifest s = None ∧ e = TypeError ∧ log (deployToKube s).1 = log s)
     ∨ (∃ properties error,
          last (log (deployToKube s).1)
          = Some (TelemetryTrack "deployToKube"
                    (properties ++ [("errorMessage", Js.Str error)]), false))).
Proof.
  intros Hthrew. destruct (manifest s) as [pod|] eqn:Hpod; last first.
  { rewrite deployToKube_undefined in * by done. simpl in *.
    split; [done|]. left. by injection Hthrew as <-. }
  destruct (plan_returns (vars s) pod) as [p Hp].
  assert (ending p = Submit ∨ ending p ≠ Submit) as [Hending|Hending]
    by (destruct (ending p); eauto).
  - destruct (deployToKube_submits ensureRestrictedSecurityContext Date_parse
                s pod p Hpod Hp Hending)
      as (entries & ok & Hseq & _ & _ & Hcases).
    destruct ok.
    + destruct Hcases as (_ & Hreturned & _). congruence.
    + destruct Hcases as (error & [] & Hlog & _ & _ & Hvars).
      * destruct Hvars as (Hreturned & _). congruence.
      * destruct Hvars as (_ & Hstarted). split; [done|]. right.
        exists (eventProperties (vars s)), error.
        by rewrite Hlog, !app_assoc, last_snoc.
  - destruct (deployToKube_no_call ensureRestrictedSecurityContext Date_parse
                s pod p Hpod Hp Hending) as [_ Hreturned]. congruence.
Qed.

(** X8. When [deployToKube] returns, the Deploy button is offered again
    exactly when planning has warned or a call has thrown: not after a
    success, not after the planning error, and not for a pod without a
    name. The warning shown is the one of this attempt, or none. *)
Theorem deploy_offered_again (s : State W) (pod : V1Pod.t) (p : Plan) :
  manifest s = Some pod →
  plan (vars s) pod = Returned p →
  (deployToKube s).2 = Returned tt →
  ∃ made,
    log (deployToKube s).1 = log s ++ made
    ∧ (deployStarted (vars (deployToKube s).1) = false
       ↔ (∃ warning, ending p = Warn warning)
         ∨ (ending p = Submit ∧ ∃ call, (call, false) ∈ made))
    ∧ deployWarning (vars (deployToKube s).1)
      = match ending p with Warn warning => warning | _ => "" end.
Proof.
  intros Hpod Hp Hreturned.
  destruct (ending p) as [|warning|error|] eqn:Hending.
  - destruct (deployToKube_submits ensureRestrictedSecurityContext Date_parse
                s pod p Hpod Hp Hending)
      as (entries & ok & Hseq & _ & _ & Hcases).
    assert (deployWarning (vars (deployToKube s).1) = "") as Hwarning.
    { destruct (manifest_Some s pod Hpod) as (l & Hbody & Hl).
      rewrite (deployToKube_eq ensureRestrictedSecurityContext Date_parse
                 s l pod Hbody Hl), Hp, Hending.
      set (s0 := set_heap _ _).
      assert (heap s0 !! l = Some (dateCreationTimestamp Date_parse pod)) as Hl0.
      { unfold s0. simpl. by rewrite lookup_alter_eq, Hl. }
      destruct (submit_cases ensureRestrictedSecurityContext s0 l p
                  (eventProperties (vars s)) _ Hl0)
        as (s2 & r & ? & _ & _ & _ & _ & _ & Hcore & ->).
      apply (f_equal deployWarning) in Hcore. simpl in Hcore.
      destruct r as [[]|error]; [done|]. rewrite rollback_eq.
      by destruct (telemetryTrack _ _ _) as [w [[]|e]]. }
    destruct ok.
    + destruct Hcases as (Hlog & _ & Hstarted & _).
      exists entries. split_and!; [done| |done]. rewrite Hstarted. split; [done|].
      intros [[? ?]|[_ [call Hcall]]]; [done|].
      rewrite (sequential_all _ _ Hseq) in Hcall.
      by apply list_elem_of_fmap in Hcall as (? & [= _] & _).
    + destruct Hcases as (error & [] & Hlog & _ & _ & Hvars).
      * destruct Hvars as (_ & Hstarted & _).
        eexists. split_and!; [exact Hlog| |done]. rewrite Hstarted.
        split; [|done]. intros _. right. split; [done|].
        destruct (sequential_threw_entry _ _ Hseq) as [call Hlast].
        apply last_Some in Hlast as [entries0 ->]. exists call. set_solver.
      * destruct Hvars as ([e He] & _). congruence.
  - destruct (manifest_Some s pod Hpod) as (l & Hbody & Hl).
    rewrite (deployToKube_eq ensureRestrictedSecurityContext Date_parse
               s l pod Hbody Hl), Hp, Hending. simpl.
    exists []. rewrite app_nil_r. split_and!; [done| |done].
    split; [|done]. intros _. left. by eexists.
  - destruct (manifest_Some s pod Hpod) as (l & Hbody & Hl).
    rewrite (deployToKube_eq ensureRestrictedSecurityContext Date_parse
               s l pod Hbody Hl), Hp, Hending. simpl.
    exists []. rewrite app_nil_r. split_and!; [done| |done].
    split; [done|]. by intros [[? ?]|[? _]].
  - destruct (manifest_Some s pod Hpod) as (l & Hbody & Hl).
    rewrite (deployToKube_eq ensureRestrictedSecurityContext Date_parse
               s l pod Hbody Hl), Hp, Hending. simpl.
    exists []. rewrite app_nil_r. split_and!; [done| |done].
    split; [done|]. by intros [[? ?]|[? _]].
Qed.

Lemma planIngress_namespace c pod services ingresses :
  planIngress c pod services = Returned (Proceed ingresses) →
  Forall (λ ingress, V1Ingress.namespace ingress = currentNamespace c
                     ∧ V1Ingress.name ingress = V1Pod.name pod) ingresses.
Proof.
  unfold planIngress. intros Hplan.
  repeat case_match; simplify_eq; by repeat constructor.
Qed.

(** The objects of a plan are all in the current namespace. *)
Lemma plan_namespace c pod p :
  plan c pod = Returned p →
  Forall (λ service, V1Service.namespace service = currentNamespace c)
         (servicesToCreate p)
  ∧ Forall (λ route, V1Route.namespace route = currentNamespace c)
           (routesToCreate p)
  ∧ Forall (λ ingress, V1Ingress.namespace ingress = currentNamespace c)
           (ingressesToCreate p).
Proof.
  intros Hp.
  destruct (Js.truthy_string (V1Pod.name pod)) eqn:Hname; last first.
  { rewrite plan_unnamed in Hp by done. by injection Hp as <-. }
  destruct (plan_named c pod p Hname Hp) as [Hservices Hroutes].
  rewrite Hservices, Hroutes, planServices_eq. split_and!.
  - destruct (deployUsingServices c); simpl; [|done].
    apply Forall_forall. intros service (port & _ & Hsome)%list_elem_of_omap.
    unfold serviceOf in Hsome. repeat case_match; by simplify_eq.
  - destruct (deployUsingServices c); simpl; [|done].
    destruct (_ && _); [|done].
    apply Forall_forall. intros route (port & _ & Hsome)%list_elem_of_omap.
    unfold routeOf in Hsome. repeat case_match; by simplify_eq.
  - revert Hp. unfold plan. rewrite Hname.
    destruct (planServices c pod) as [services routes].
    destruct (planIngress c pod services) as [[ingresses|?|?]|] eqn:Hingress;
      intros [= <-]; simpl; [|done..].
    eapply Forall_impl; [by eapply planIngress_namespace|]. by intros ? [? _].
Qed.


(** Planning reads the options only. *)
Lemma plan_options c c' pod : options c = options c' → plan c pod = plan c' pod.
Proof.
  destruct c, c'. unfold options. simpl. intros [= -> -> -> -> -> -> -> ->].
  reflexivity.
Qed.

(** [deployToKube] leaves the options as they are, and [deployFinished]
    false. *)
Lemma deployToKube_frame (s : State W) :
  options (vars (deployToKube s).1) = options (vars s)
  ∧ deployFinished (vars (deployToKube s).1) = false.
Proof.
  destruct (manifest s) as [pod|] eqn:Hpod; last first.
  { by rewrite deployToKube_undefined. }
  destruct (manifest_Some s pod Hpod) as (l & Hbody & Hl).
  rewrite (deployToKube_eq ensureRestrictedSecurityContext Date_parse
             s l pod Hbody Hl).
  destruct (plan (vars s) pod) as [p|e]; [|done].
  destruct (ending p); try done.
  set (s0 := set_heap _ _).
  assert (heap s0 !! l = Some (dateCreationTimestamp Date_parse pod)) as Hl0.
  { unfold s0. simpl. by rewrite lookup_alter_eq, Hl. }
  destruct (submit_cases ensureRestrictedSecurityContext s0 l p
              (eventProperties (vars s)) _ Hl0)
    as (s2 & r & ? & _ & _ & _ & _ & _ & Hcore & ->).
  pose proof (f_equal options Hcore) as Hoptions.
  pose proof (f_equal deployFinished Hcore) as Hfinished.
  destruct r as [[]|error]; [done|]. rewrite rollback_eq.
  by destruct (telemetryTrack _ _ _) as [w [[]|e]].
Qed.

Lemma omap_routeOf_hidden c pod ports :
  Forall (λ port, V1ContainerPort.hostPort port = None) ports →
  omap (routeOf c pod) ports = [].
Proof.
  induction 1 as [|port ports Hport _ IH]; [done|]. simpl.
  unfold routeOf at 1, exposed. by rewrite Hport.
Qed.

Lemma name_dateCreationTimestamp pod :
  V1Pod.name (dateCreationTimestamp Date_parse pod) = V1Pod.name pod.
Proof.
  unfold dateCreationTimestamp, V1Pod.name.
  destruct pod as [[[? ? ? time]|] ? ?]; [|done]. simpl.
  by destruct (Js.truthy_time time).
Qed.

(** X10. A submission with [useServices], and without the restricted
    security context, leaves in the form a manifest without host port and
    without volumes, whether it succeeded or failed; planning it again, as a
    retry does, gives no Service and no Route, and a warning when an ingress
    is requested. *)
Theorem retry_plans_no_service (s : State W) (pod : V1Pod.t) (p : Plan) :
  manifest s = Some pod →
  plan (vars s) pod = Returned p →
  ending p = Submit →
  deployUsingServices (vars s) = true →
  deployUsingRestrictedSecurityContext (vars s) = false →
  ∃ pod' p',
    manifest (deployToKube s).1 = Some pod'
    ∧ Forall (λ port, V1ContainerPort.hostPort port = None) (V1Pod.portEntries pod')
    ∧ V1Pod.volumes pod' = None
    ∧ plan (vars (deployToKube s).1) pod' = Returned p'
    ∧ servicesToCreate p' = []
    ∧ routesToCreate p' = []
    ∧ (createIngress (vars s) = true → ending p' = Warn noServiceWarning).
Proof.
  intros Hpod Hp Hending Hservices Hrestricted.
  destruct (deployToKube_submits ensureRestrictedSecurityContext Date_parse
              s pod p Hpod Hp Hending) as (_ & _ & _ & Hmanifest & _).
  rewrite sanitize_eq, Hrestricted in Hmanifest.
  set (pod' := removeHostFields (vars s) (dateCreationTimestamp Date_parse pod))
    in *.
  destruct (deployToKube_frame s) as [Hoptions _].
  destruct (plan_returns (vars s) pod') as [p' Hp']. exists pod', p'.
  rewrite (plan_options _ _ pod' Hoptions).
  assert (Forall (λ port, V1ContainerPort.hostPort port = None)
                 (V1Pod.portEntries pod')) as Hhidden.
  { unfold pod'. rewrite portEntries_removeHostFields by done.
    by apply Forall_fmap, Forall_true. }
  assert (Js.truthy_string (V1Pod.name pod') = true) as Hname.
  { unfold pod'. rewrite name_removeHostFields, name_dateCreationTimestamp.
    destruct (Js.truthy_string (V1Pod.name pod)) eqn:Hname; [done|].
    rewrite plan_unnamed in Hp by done. injection Hp as <-. done. }
  destruct (plan_named _ _ _ Hname Hp') as [Hplanned Hroutes].
  rewrite planServices_eq, Hservices in Hplanned, Hroutes. simpl in *.
  rewrite omap_serviceOf_hidden in Hplanned by done.
  assert (routesToCreate p' = []) as Hnone.
  { rewrite Hroutes. destruct (_ && _); [|done]. by apply omap_routeOf_hidden. }
  split_and!; try done.
  - apply volumes_removeHostFields.
  - intros Hingress.
    destruct (plan_ingress_cases (vars s) pod' Hname Hingress)
      as (p'' & Hp'' & Hcases).
    rewrite Hp' in Hp''. injection Hp'' as <-.
    rewrite Hplanned in Hcases. by destruct Hcases.
Qed.

(** X11. In every state of a mounted component, [deployFinished] is only
    true while [deployStarted] is true and a pod has been created: the Done
    and Open Pod buttons are never shown together with the Deploy button, nor
    without a created pod. *)
Theorem done_only_after_deploy (parsed : V1Pod.t) (s : State W) :
  reachable ensureRestrictedSecurityContext Date_parse parsed s →
  doneInvariant s.
Proof.
  induction 1 as [namespace routeGroupSupported w|s e Hreachable IH Henabled].
  - unfold doneInvariant. destruct (timers_flush (onMount parsed)
      (initialState namespace routeGroupSupported w)) as [_ ->].
    by rewrite onMount_eq.
  - pose proof (reachable_timerInvariant _ _ _ _ Hreachable) as Htimers.
    unfold doneInvariant in *.
    destruct e as [|h| | | | | | | |]; simpl in *;
      match goal with
      | |- context [flush ?m s] => destruct (timers_flush m s) as [_ ->]
      end; try done.
    + destruct (deployToKube_frame s) as [_ ->]. done.
    + apply bool_decide_eq_true in Henabled as [ms Hms].
      destruct (Htimers h ms Hms) as (_ & _ & Hstarted).
      rewrite poll_eq.
      destruct (createdPod (vars s) ≫= V1Pod.name) as [name|]; [|done].
      destruct (createdPod (vars s) ≫= V1Pod.namespace) as [namespace|]; [|done].
      destruct (_ && _); [|done].
      destruct (kubernetesReadNamespacedPod _ _ _) as [w [updated|error]];
        [|done].
      destruct (bool_decide _); simpl; [done|].
      intros Hfinished. by destruct (IH Hfinished).
    + unfold onDestroy, withVars, clearInterval.
      by destruct (updatePodInterval (vars s)).
    + unfold inputPodName, withVars. by destruct (bodyPod (vars s)).
Qed.

(** *** What the form records of the created resources *)

Lemma recordsRoutes_ret {A} (a : A) : recordsRoutes (W:=W) (ret a).
Proof.
  intros s. exists []. simpl. rewrite app_nil_r. split_and!; try done.
Qed.

Lemma recordsRoutes_bind {A B} (m : Exec W A) (k : A → Exec W B) :
  recordsRoutes m → (∀ a, recordsRoutes (k a)) → recordsRoutes (m ≫= k).
Proof.
  intros Hm Hk s. rewrite bind_unfold.
  destruct (Hm s) as (entries1 & Hlog1 & Hroutes1 & Hpod1 & Hnone1).
  destruct (m s) as [s1 [a|e]]; simpl in *.
  - destruct (Hk a s1) as (entries2 & Hlog2 & Hroutes2 & Hpod2 & Hnone2).
    exists (entries1 ++ entries2).
    rewrite Hlog2, Hlog1, Hroutes2, Hroutes1, Hpod2, Hpod1, <- app_assoc,
      List.filter_app, length_app, List.existsb_app, Hnone1, Hnone2.
    split_and!; try done. lia.
  - by exists entries1.
Qed.

(** A call that creates neither a Pod nor a Route. *)
Lemma recordsRoutes_perform {A} (call : string → Call)
    (f : string → W → W * outcome A) :
  (∀ namespace ok, podCreated (call namespace, ok) = false
                   ∧ routeCreated (call namespace, ok) = false) →
  recordsRoutes
    (withVars (λ c, perform (call (currentNamespace c)) (f (currentNamespace c)))).
Proof.
  intros Hcall s. unfold withVars, perform.
  destruct (f _ (world s)) as [w r].
  exists [(call (currentNamespace (vars s)), succeeded r)].
  destruct (Hcall (currentNamespace (vars s)) (succeeded r)) as [Hpod Hroute].
  unfold List.filter, List.existsb. rewrite Hpod, Hroute. simpl.
  split_and!; done.
Qed.

Lemma recordsRoutes_telemetry event properties :
  recordsRoutes (perform (W:=W) (TelemetryTrack event properties)
                         (telemetryTrack event properties)).
Proof.
  intros s. unfold perform.
  destruct (telemetryTrack _ _ (world s)) as [w r]. simpl.
  eexists. split; [reflexivity|]. simpl. split_and!; done.
Qed.

(** Lines 352 to 355, one route. *)
Lemma recordsRoutes_route route :
  recordsRoutes
    (createdRoute ← withVars (λ c,
       perform (CreateRoute (currentNamespace c) route)
               (openshiftCreateRoute (currentNamespace c) route));
     assign (λ c, set_createdRoutes (createdRoutes c ++ [createdRoute]) c)).
Proof.
  intros s. rewrite bind_unfold. unfold withVars, perform, assign.
  destruct (openshiftCreateRoute _ route (world s)) as [w [createdRoute|e]];
    simpl; eexists; (split; [reflexivity|]); simpl;
    rewrite ?length_app; simpl; split_and!; try done; lia.
Qed.

Lemma recordsRoutes_forOf {A} (xs : list A) (body : A → Exec W unit) :
  (∀ x, recordsRoutes (body x)) → recordsRoutes (forOf xs body).
Proof.
  intros Hbody. induction xs as [|x xs IH]; simpl.
  - apply recordsRoutes_ret.
  - apply recordsRoutes_bind; [apply Hbody|intros _; apply IH].
Qed.

(** Lines 343 to 363 from a state without created pod. *)
Lemma createAll_records l p properties (s : State W) pod :
  heap s !! l = Some pod →
  createdPod (vars s) = None →
  ∃ entries,
    log (createAll l p properties s).1 = log s ++ entries
    ∧ length (createdRoutes (vars (createAll l p properties s).1))
      = (length (createdRoutes (vars s))
         + length (List.filter routeCreated entries))%nat
    ∧ (is_Some (createdPod (vars (createAll l p properties s).1))
       ↔ List.existsb podCreated entries = true).
Proof.
  intros Hl Hnone.
  assert (Hrest : recordsRoutes
    (forOf (servicesToCreate p) (λ service,
       withVars (λ c,
         perform (CreateService (currentNamespace c) service)
                 (kubernetesCreateService (currentNamespace c) service)));;
     forOf (routesToCreate p) (λ route,
       createdRoute ← withVars (λ c,
         perform (CreateRoute (currentNamespace c) route)
                 (openshiftCreateRoute (currentNamespace c) route));
       assign (λ c, set_createdRoutes (createdRoutes c ++ [createdRoute]) c));;
     forOf (ingressesToCreate p) (λ ingress,
       withVars (λ c,
         perform (CreateIngress (currentNamespace c) ingress)
                 (kubernetesCreateIngress (currentNamespace c) ingress)));;
     perform (TelemetryTrack "deployToKube" properties)
             (telemetryTrack "deployToKube" properties))).
  { apply recordsRoutes_bind.
    { apply recordsRoutes_forOf. intros service.
      by apply (recordsRoutes_perform (λ namespace, CreateService namespace service)
                  (λ namespace, kubernetesCreateService namespace service)). }
    intros _. apply recordsRoutes_bind.
    { apply recordsRoutes_forOf. intros route. apply recordsRoutes_route. }
    intros _. apply recordsRoutes_bind.
    { apply recordsRoutes_forOf. intros ingress.
      by apply (recordsRoutes_perform (λ namespace, CreateIngress namespace ingress)
                  (λ namespace, kubernetesCreateIngress namespace ingress)). }
    intros _. apply recordsRoutes_telemetry. }
  match type of Hrest with
  | recordsRoutes ?rest =>
      assert (createAll l p properties s =
              match kubernetesCreatePod (currentNamespace (vars s)) pod (world s) with
              | (w, Returned created) =>
                  rest (mkState (set_createdPod (Some created) (vars s)) (heap s)
                          (timers s) (timerSeq s) w
                          (log s ++ [(CreatePod (currentNamespace (vars s)) pod,
                                      true)]))
              | (w, Threw e) =>
                  (mkState (vars s) (heap s) (timers s) (timerSeq s) w
                     (log s ++ [(CreatePod (currentNamespace (vars s)) pod,
                                 false)]),
                   Threw e)
              end) as ->
  end.
  { unfold createAll. rewrite bind_unfold. unfold deref. simpl. rewrite Hl.
    rewrite bind_unfold. unfold withVars at 1, perform at 1.
    by destruct (kubernetesCreatePod (currentNamespace (vars s)) pod (world s))
      as [w [created|e]]. }
  destruct (kubernetesCreatePod (currentNamespace (vars s)) pod (world s))
    as [w [created|e]].
  - match goal with
    | |- context [log (?rest ?s1).1] =>
        destruct (Hrest s1) as (entries & Hlog & Hroutes & Hpod & Hnoneleft);
        destruct (rest s1) as [s2 r]
    end.
    simpl in *. exists ((CreatePod (currentNamespace (vars s)) pod, true) :: entries).
    rewrite Hlog, Hroutes, Hpod, <- app_assoc. simpl.
    split_and!; try done.
  - exists [(CreatePod (currentNamespace (vars s)) pod, false)]. simpl.
    rewrite Hnone. split_and!; try done.
Qed.

(** X12. After [deployToKube], [createdPod] holds a pod exactly when the
    creation of the Pod has returned in this attempt, and [createdRoutes]
    holds one route for each Route creation that has returned in this
    attempt: nothing of a former attempt is left. *)
Theorem created_resources_recorded (s : State W) (pod : V1Pod.t) :
  manifest s = Some pod →
  ∃ made,
    log (deployToKube s).1 = log s ++ made
    ∧ length (createdRoutes (vars (deployToKube s).1))
      = length (List.filter routeCreated made)
    ∧ (is_Some (createdPod (vars (deployToKube s).1))
       ↔ List.existsb podCreated made = true).
Proof.
  intros Hpod. destruct (manifest_Some s pod Hpod) as (l & Hbody & Hl).
  rewrite (deployToKube_eq ensureRestrictedSecurityContext Date_parse
             s l pod Hbody Hl).
  destruct (plan_returns (vars s) pod) as [p ->].
  assert (Hnothing : ∀ v : Component,
            createdRoutes v = [] → createdPod v = None →
            ∃ made : list (Call * bool),
              log s = log s ++ made
              ∧ length (createdRoutes v) = length (List.filter routeCreated made)
              ∧ (is_Some (createdPod v) ↔ List.existsb podCreated made = true)).
  { intros v -> ->. exists []. rewrite app_nil_r. split_and!; try done. }
  destruct (ending p); [|by apply Hnothing..].
  set (s0 := set_heap (alter (dateCreationTimestamp Date_parse) l (heap s))
               (resetState s)).
  set (s1 := set_heap (alter (sanitize ensureRestrictedSecurityContext (vars s0))
                         l (heap s0)) s0).
  assert (heap s1 !! l
          = Some (sanitize ensureRestrictedSecurityContext (vars s0)
                    (dateCreationTimestamp Date_parse pod))) as Hl1.
  { simpl. by rewrite !lookup_alter_eq, Hl. }
  destruct (createAll_records l p (eventProperties (vars s)) s1 _ Hl1 eq_refl)
    as (entries & Hlog & Hroutes & Hcreated).
  unfold submit, tryCatch. rewrite bind_unfold. unfold withVars, mutate.
  fold s1. rewrite bind_unfold.
  destruct (createAll l p (eventProperties (vars s)) s1) as [s2 [[]|error]];
    simpl in Hlog, Hroutes, Hcreated.
  - exists entries. unfold startPolling. rewrite bind_unfold. simpl.
    by rewrite Hlog, Hroutes.
  - rewrite rollback_eq.
    destruct (telemetryTrack _ _ (world s2)) as [w [[]|e]]; simpl;
      eexists; (split; [by rewrite Hlog, <- app_assoc|]);
      rewrite List.filter_app, List.existsb_app, length_app, Hroutes; simpl;
      rewrite orb_false_r; (split; [lia|done]).
Qed.

(** ** The port chosen for the ingress *)

Lemma portEntries_metadata metadata pod :
  V1Pod.portEntries (V1Pod.mk metadata (V1Pod.spec pod) (V1Pod.status pod))
  = V1Pod.portEntries pod.
Proof. by destruct pod. Qed.

Lemma portEntries_syncLabels pod :
  V1Pod.portEntries (syncLabels pod) = V1Pod.portEntries pod.
Proof.
  unfold syncLabels. destruct (V1Pod.metadata pod) as [metadata|]; [|done].
  destruct (V1ObjectMeta.labels metadata); [|done]. apply portEntries_metadata.
Qed.

Lemma portEntries_setName value pod :
  V1Pod.portEntries (setName value pod) = V1Pod.portEntries pod.
Proof.
  unfold setName. destruct (V1Pod.metadata pod); [|done].
  apply portEntries_metadata.
Qed.

Lemma portEntries_dateCreationTimestamp pod :
  V1Pod.portEntries (dateCreationTimestamp Date_parse pod) = V1Pod.portEntries pod.
Proof.
  unfold dateCreationTimestamp. destruct (V1Pod.metadata pod) as [metadata|]; [|done].
  destruct (Js.truthy_time _); [|done]. apply portEntries_metadata.
Qed.

Lemma portEntries_setPullPolicy pod :
  V1Pod.portEntries (forEachContainer setPullPolicy pod) = V1Pod.portEntries pod.
Proof.
  unfold V1Pod.portEntries, V1Pod.containers, forEachContainer.
  destruct pod as [metadata [spec|] status]; [|done]. simpl.
  induction (V1PodSpec.containers spec) as [|container containers IH]; [done|].
  by rewrite fmap_cons, !bind_cons, IH.
Qed.

Lemma portEntries_deleteVolumes pod :
  V1Pod.portEntries (deleteVolumes pod) = V1Pod.portEntries pod.
Proof.
  unfold deleteVolumes. destruct pod as [metadata [spec|] status]; [|done]. simpl.
  by destruct (V1PodSpec.volumes spec).
Qed.

(** The port entries sanitization leaves: those of the manifest, without
    their host ports when services are used. *)
Lemma portEntries_sanitize c pod :
  (∀ pod, V1Pod.portEntries (ensureRestrictedSecurityContext pod)
          = V1Pod.portEntries pod) →
  V1Pod.portEntries (sanitize ensureRestrictedSecurityContext c pod)
  = V1Pod.portEntries pod
  ∨ Forall (λ port, V1ContainerPort.hostPort port = None)
           (V1Pod.portEntries (sanitize ensureRestrictedSecurityContext c pod)).
Proof.
  intros Hensure.
  assert (V1Pod.portEntries (sanitize ensureRestrictedSecurityContext c pod)
          = V1Pod.portEntries (removeHostFields c pod)) as ->.
  { rewrite sanitize_eq.
    by destruct (deployUsingRestrictedSecurityContext c); [rewrite Hensure|]. }
  destruct (deployUsingServices c) eqn:Hservices.
  - right. rewrite portEntries_removeHostFields by done.
    by apply Forall_fmap, Forall_true.
  - left. unfold removeHostFields. rewrite Hservices.
    apply portEntries_deleteVolumes.
Qed.

(** The manifest [deployToKube] leaves in the form. *)
Lemma manifest_deployToKube (s : State W) pod :
  manifest s = Some pod →
  manifest (deployToKube s).1 = Some pod
  ∨ manifest (deployToKube s).1
    = Some (sanitize ensureRestrictedSecurityContext (vars s)
              (dateCreationTimestamp Date_parse pod)).
Proof.
  intros Hpod. destruct (plan_returns (vars s) pod) as [p Hp].
  assert (ending p = Submit ∨ ending p ≠ Submit) as [Hending|Hending]
    by (destruct (ending p); eauto).
  - right.
    by destruct (deployToKube_submits ensureRestrictedSecurityContext Date_parse
                   s pod p Hpod Hp Hending) as (_ & _ & _ & -> & _).
  - left. destruct (manifest_Some s pod Hpod) as (l & Hbody & Hl).
    rewrite (deployToKube_eq ensureRestrictedSecurityContext Date_parse
               s l pod Hbody Hl), Hp.
    destruct (ending p); done.
Qed.

(** A timer that fires leaves the manifest and the options as they are. *)
Lemma poll_frame (s : State W) :
  manifest (poll s).1 = manifest s ∧ options (vars (poll s).1) = options (vars s).
Proof.
  rewrite poll_eq.
  destruct (createdPod (vars s) ≫= V1Pod.name) as [name|]; [|done].
  destruct (createdPod (vars s) ≫= V1Pod.namespace) as [namespace|]; [|done].
  destruct (_ && _); [|done].
  destruct (kubernetesReadNamespacedPod name namespace (world s))
    as [w [updatedPod|e]]; [|done].
  by destruct (bool_decide _).
Qed.

Lemma portInvariant_flush (m : Exec W unit) (s : State W) :
  portInvariant (m s).1 → portInvariant (flush m s).
Proof.
  unfold portInvariant. rewrite manifest_flush.
  destruct (timers_flush m s) as [_ ->].
  intros [Hchosen (pod & -> & Hports)]. split; [done|].
  exists (syncLabels pod). by rewrite portEntries_syncLabels.
Qed.

Lemma options_port (c c' : Component) :
  options c' = options c →
  ingressPort c' = ingressPort c ∧ containerPortArray c' = containerPortArray c.
Proof. unfold options. by intros [= _ _ _ _ _ _ -> ->]. Qed.

Lemma portInvariant_frame (s s' : State W) pod pod' :
  portInvariant s →
  manifest s = Some pod →
  manifest s' = Some pod' →
  ingressPort (vars s') = ingressPort (vars s) →
  containerPortArray (vars s') = containerPortArray (vars s) →
  V1Pod.portEntries pod' = V1Pod.portEntries pod
  ∨ Forall (λ port, V1ContainerPort.hostPort port = None) (V1Pod.portEntries pod') →
  portInvariant s'.
Proof.
  unfold portInvariant.
  intros [Hchosen (pod0 & Hpod0 & Hports)] Hpod Hpod' -> -> Hentries.
  split; [done|]. exists pod'. split; [done|].
  rewrite Hpod in Hpod0. injection Hpod0 as <-.
  destruct Hentries as [->|Hhidden]; [done|by right].
Qed.

Lemma portInvariant_handle (s : State W) e :
  (∀ pod, V1Pod.portEntries (ensureRestrictedSecurityContext pod)
          = V1Pod.portEntries pod) →
  portInvariant s →
  enabled e s = true →
  portInvariant (handle ensureRestrictedSecurityContext Date_parse e s).
Proof.
  intros Hensure Hinv Henabled.
  pose proof Hinv as [Hchosen (pod & Hpod & Hports)].
  destruct e; simpl; apply portInvariant_flush.
  - destruct (deployToKube_frame s) as [Hoptions _].
    apply options_port in Hoptions as [Hport Harray].
    destruct (manifest_deployToKube s pod Hpod) as [Hleft|Hleft].
    + by eapply (portInvariant_frame s _ pod pod); eauto.
    + eapply (portInvariant_frame s _ pod); [done|done|exact Hleft|done|done|].
      rewrite <- (portEntries_dateCreationTimestamp pod).
      apply portEntries_sanitize, Hensure.
  - destruct (poll_frame s) as [Hmanifest Hoptions].
    apply options_port in Hoptions as [Hport Harray].
    eapply (portInvariant_frame s _ pod pod); eauto. by rewrite Hmanifest.
  - eapply (portInvariant_frame s _ pod pod); eauto;
      unfold onDestroy, withVars, clearInterval;
      by destruct (updatePodInterval (vars s)).
  - destruct (manifest_Some s pod Hpod) as (l & Hbody & Hl).
    eapply (portInvariant_frame s _ pod (setName value pod)); eauto.
    + unfold inputPodName, withVars, mutate, manifest. rewrite Hbody. simpl.
      rewrite Hbody. simpl. by rewrite lookup_alter_eq, Hl.
    + unfold inputPodName, withVars, mutate. by rewrite Hbody.
    + unfold inputPodName, withVars, mutate. by rewrite Hbody.
    + left. apply portEntries_setName.
  - by eapply (portInvariant_frame s _ pod pod); eauto.
  - by eapply (portInvariant_frame s _ pod pod); eauto.
  - by eapply (portInvariant_frame s _ pod pod); eauto.
  - simpl in Henabled. apply andb_true_iff in Henabled as [_ Hoption].
    apply bool_decide_eq_true in Hoption.
    split; [by right|]. by exists pod.
  - by eapply (portInvariant_frame s _ pod pod); eauto.
  - by eapply (portInvariant_frame s _ pod pod); eauto.
Qed.

Lemma reachable_portInvariant parsed (s : State W) :
  (∀ pod, V1Pod.portEntries (ensureRestrictedSecurityContext pod)
          = V1Pod.portEntries pod) →
  reachable ensureRestrictedSecurityContext Date_parse parsed s →
  portInvariant s.
Proof.
  intros Hensure. induction 1 as [namespace routeGroupSupported w|s e _ IH Henabled].
  - apply portInvariant_flush. split.
    + left. by rewrite onMount_eq.
    + exists (forEachContainer setPullPolicy parsed).
      split; [apply manifest_onMount|]. left.
      by rewrite onMount_eq, portEntries_setPullPolicy.
  - by apply portInvariant_handle.
Qed.

(** X13. In every state of a mounted component, planning never ends with
    the error that no service matches the port chosen for the ingress: the
    port is chosen among the host ports collected by [onMount], and while
    more than one service is planned each of these host ports has its
    service. *)
Theorem chosen_port_has_its_service (parsed : V1Pod.t) (s : State W)
    (pod : V1Pod.t) (p : Plan) :
  (∀ pod, V1Pod.portEntries (ensureRestrictedSecurityContext pod)
          = V1Pod.portEntries pod) →
  reachable ensureRestrictedSecurityContext Date_parse parsed s →
  manifest s = Some pod →
  plan (vars s) pod = Returned p →
  ∀ error, ending p ≠ Fail error.
Proof.
  intros Hensure Hreachable Hpod Hp error.
  destruct (reachable_portInvariant parsed s Hensure Hreachable)
    as [Hchosen (pod' & Hpod' & Hports)].
  rewrite Hpod in Hpod'. injection Hpod' as <-.
  destruct (Js.truthy_string (V1Pod.name pod)) eqn:Hname; last first.
  { rewrite plan_unnamed in Hp by done. by injection Hp as <-. }
  destruct (createIngress (vars s)) eqn:Hingress; last first.
  { unfold plan in Hp. rewrite Hname in Hp.
    destruct (planServices (vars s) pod) as [services routes].
    unfold planIngress in Hp. rewrite Hingress in Hp. by injection Hp as <-. }
  destruct (plan_ingress_cases (vars s) pod Hname Hingress) as (p' & Hp' & Hcases).
  rewrite Hp in Hp'. injection Hp' as <-.
  destruct (plan_named _ _ _ Hname Hp) as [Hplanned _].
  destruct (servicesToCreate p) as [|service [|service' services]] eqn:Hservices.
  - by destruct Hcases as [-> _].
  - by destruct Hcases as (? & _ & -> & _).
  - destruct Hcases as [Hnone Hsome].
    destruct (Js.truthy_number (ingressPort (vars s))) eqn:Htruthy; last first.
    { by destruct (Hnone eq_refl) as [-> _]. }
    destruct (ingressPort (vars s)) as [q|] eqn:Hq; [|done].
    assert (q ≠ 0) as Hne.
    { simpl in Htruthy. intros ->. done. }
    destruct (Hsome q eq_refl Hne) as [Hfound _].
    rewrite planServices_eq in Hplanned.
    destruct (deployUsingServices (vars s)); [|done]. simpl in Hplanned.
    destruct Hports as [Hoptions|Hhidden]; last first.
    { by rewrite (omap_serviceOf_hidden _ _ _ Hhidden) in Hplanned. }
    destruct Hchosen as [?|Hchosen]; [done|].
    rewrite <- Hoptions in Hchosen.
    apply list_elem_of_fmap in Hchosen as (port & Hhost & Hport).
    assert (serviceOf (vars s) pod port
            = Some (newService (vars s) pod port q)) as Hservice.
    { unfold serviceOf. rewrite <- Hhost.
      by destruct (Z.eqb_spec q 0). }
    destruct (serviceOf_port0 _ _ _ _ Hservice) as [Hport0 _].
    destruct (Hfound (newService (vars s) pod port q)) as [-> _]; [| |done].
    + rewrite Hplanned. apply list_elem_of_omap. by exists port.
    + by rewrite Hport0.
Qed.

(** X14. In every state of a mounted component at most one timer is
    active, and none while the Deploy button is offered: a submission
    cancels the timer of the former one before it starts its own. *)
Theorem one_poller_at_most (parsed : V1Pod.t) (s : State W) :
  reachable ensureRestrictedSecurityContext Date_parse parsed s →
  (size (timers s) ≤ 1)%nat
  ∧ (deployStarted (vars s) = false → timers s = ∅).
Proof.
  intros Hreachable.
  pose proof (reachable_timerInvariant _ _ _ _ Hreachable) as Hinv.
  split.
  - destruct (updatePodInterval (vars s)) as [h0|] eqn:Hinterval.
    + destruct (timers s !! h0) as [ms|] eqn:Hh0.
      * assert (timers s = {[h0 := ms]}) as ->; [|rewrite map_size_singleton; lia].
        apply map_eq. intros h. destruct (decide (h = h0)) as [->|Hne].
        { by rewrite lookup_singleton_eq. }
        rewrite lookup_singleton_ne by done.
        destruct (timers s !! h) as [ms'|] eqn:Hh; [|done].
        destruct (Hinv h ms' Hh) as (Hheld & _). congruence.
      * assert (timers s = ∅) as ->; [|rewrite map_size_empty; lia].
        apply map_empty. intros h.
        destruct (timers s !! h) as [ms'|] eqn:Hh; [|done].
        destruct (Hinv h ms' Hh) as (Hheld & _). congruence.
    + assert (timers s = ∅) as ->; [|rewrite map_size_empty; lia].
      apply map_empty. intros h.
      destruct (timers s !! h) as [ms'|] eqn:Hh; [|done].
      destruct (Hinv h ms' Hh) as (Hheld & _). congruence.
  - intros Hoffered. apply map_empty. intros h.
    destruct (timers s !! h) as [ms'|] eqn:Hh; [|done].
    destruct (Hinv h ms' Hh) as (_ & _ & Hstarted). congruence.
Qed.

End Further.

(** ** The further properties at work *)

Lemma poll_is_harmless_witness :
  Js.truthy_string (createdPod (vars (mounted web [])) ≫= V1Pod.name)
  && Js.truthy_string (createdPod (vars (mounted web [])) ≫= V1Pod.namespace)
  = false
  ∧ poll (mounted web []) = (mounted web [], Returned tt).
Proof.
  split; [reflexivity|].
  destruct (poll_is_harmless (mounted web [])) as (_ & _ & _ & _ & _ & _ & Hnothing).
  exact (Hnothing eq_refl).
Defined.

Lemma submission_ends_with_its_event_witness :
  manifest (mounted web [true; false]) = Some (loaded web)
  ∧ ∃ p made,
      plan (vars (mounted web [true; false])) (loaded web) = Returned p
      ∧ ending p = Submit
      ∧ log (deployToKube samePod epoch (mounted web [true; false])).1
        = log (mounted web [true; false]) ++ made
      ∧ last made
        = Some (TelemetryTrack "deployToKube"
                  [("useServices", Js.Bool true); ("useRoutes", Js.Bool true);
                   ("createIngress", Js.Bool false);
                   ("errorMessage", Js.Str "rejected")], true).
Proof.
  assert (H1 : manifest (mounted web [true; false]) = Some (loaded web))
    by (vm_compute; reflexivity).
  split; [exact H1|].
  assert (∃ p, plan (vars (mounted web [true; false])) (loaded web) = Returned p
               ∧ ending p = Submit) as (p & Hp & Hending).
  { eexists. split; [vm_compute; reflexivity|reflexivity]. }
  destruct (submission_ends_with_its_event samePod epoch
              (mounted web [true; false]) (loaded web) p H1 Hp Hending)
    as (made & Hlog & Hcases).
  exists p, made. split_and!; [exact Hp|exact Hending|exact Hlog|].
  vm_compute in Hlog. rewrite <- Hlog. reflexivity.
Defined.

Lemma deployToKube_throws_only_witness :
  (deployToKube samePod epoch (mounted web [false; false])).2 = Threw "rejected"
  ∧ deployStarted (vars (deployToKube samePod epoch (mounted web [false; false])).1)
    = true.
Proof.
  assert (H1 : (deployToKube samePod epoch (mounted web [false; false])).2
               = Threw "rejected") by (vm_compute; reflexivity).
  split; [exact H1|].
  destruct (deployToKube_throws_only samePod epoch _ _ H1) as [Hstarted _].
  exact Hstarted.
Defined.

Lemma deploy_offered_again_witness :
  manifest (mounted web [false]) = Some (loaded web)
  ∧ (deployToKube samePod epoch (mounted web [false])).2 = Returned tt
  ∧ ∃ p, plan (vars (mounted web [false])) (loaded web) = Returned p
       ∧ ending p = Submit
       ∧ deployStarted (vars (deployToKube samePod epoch (mounted web [false])).1)
         = false.
Proof.
  assert (H1 : manifest (mounted web [false]) = Some (loaded web))
    by (vm_compute; reflexivity).
  assert (H2 : (deployToKube samePod epoch (mounted web [false])).2 = Returned tt)
    by (vm_compute; reflexivity).
  split_and!; [exact H1|exact H2|].
  assert (∃ p, plan (vars (mounted web [false])) (loaded web) = Returned p
               ∧ ending p = Submit) as (p & Hp & Hending).
  { eexists. split; [vm_compute; reflexivity|reflexivity]. }
  destruct (deploy_offered_again samePod epoch (mounted web [false]) (loaded web)
              p H1 Hp H2) as (made & Hlog & Hiff & _).
  exists p. split_and!; [exact Hp|exact Hending|].
  apply Hiff. right. split; [exact Hending|].
  vm_compute in Hlog. rewrite <- Hlog. eexists. apply list_elem_of_here.
Defined.


Lemma retry_plans_no_service_witness :
  manifest (mounted web [false]) = Some (loaded web)
  ∧ deployUsingServices (vars (mounted web [false])) = true
  ∧ deployUsingRestrictedSecurityContext (vars (mounted web [false])) = false
  ∧ ∃ p pod' p',
      plan (vars (mounted web [false])) (loaded web) = Returned p
      ∧ ending p = Submit
      ∧ length (servicesToCreate p) = 1%nat
      ∧ manifest (deployToKube samePod epoch (mounted web [false])).1 = Some pod'
      ∧ plan (vars (deployToKube samePod epoch (mounted web [false])).1) pod'
        = Returned p'
      ∧ servicesToCreate p' = [].
Proof.
  assert (H1 : manifest (mounted web [false]) = Some (loaded web))
    by (vm_compute; reflexivity).
  split_and!; [exact H1|reflexivity|reflexivity|].
  assert (∃ p, plan (vars (mounted web [false])) (loaded web) = Returned p
               ∧ ending p = Submit ∧ length (servicesToCreate p) = 1%nat)
    as (p & Hp & Hending & Hlength).
  { eexists. split; [vm_compute; reflexivity|]. split; reflexivity. }
  destruct (retry_plans_no_service samePod epoch (mounted web [false])
              (loaded web) p H1 Hp Hending eq_refl eq_refl)
    as (pod' & p' & Hmanifest & _ & _ & Hp' & Hnone & _).
  exists p, pod', p'. split_and!; done.
Defined.

Lemma done_only_after_deploy_witness :
  reachable samePod epoch web
    (handle samePod epoch (TimerFires 0) (deployed web []))
  ∧ deployFinished
      (vars (handle samePod epoch (TimerFires 0) (deployed web []))) = true
  ∧ deployStarted
      (vars (handle samePod epoch (TimerFires 0) (deployed web []))) = true
  ∧ is_Some (createdPod
               (vars (handle samePod epoch (TimerFires 0) (deployed web [])))).
Proof.
  assert (H1 : reachable samePod epoch web
                 (handle samePod epoch (TimerFires 0) (deployed web []))).
  { apply reachable_handle; [apply reachable_deployed; reflexivity|].
    vm_compute. reflexivity. }
  assert (H2 : deployFinished
                 (vars (handle samePod epoch (TimerFires 0) (deployed web [])))
               = true) by (vm_compute; reflexivity).
  split_and!; [exact H1|exact H2|..];
    by destruct (done_only_after_deploy samePod epoch web _ H1 H2).
Defined.

Lemma created_resources_recorded_witness :
  manifest (mountedOnOpenShift twoPorts [true; true; true; true; false])
  = Some (loaded twoPorts)
  ∧ length (createdRoutes
              (vars (deployToKube samePod epoch
                       (mountedOnOpenShift twoPorts
                          [true; true; true; true; false])).1)) = 1%nat
  ∧ is_Some (createdPod
               (vars (deployToKube samePod epoch
                        (mountedOnOpenShift twoPorts
                           [true; true; true; true; false])).1)).
Proof.
  assert (H1 : manifest (mountedOnOpenShift twoPorts [true; true; true; true; false])
               = Some (loaded twoPorts)) by (vm_compute; reflexivity).
  split; [exact H1|].
  destruct (created_resources_recorded samePod epoch _ _ H1)
    as (made & Hlog & Hroutes & Hcreated).
  vm_compute in Hlog. rewrite <- Hlog in Hroutes, Hcreated.
  split; [exact Hroutes|]. apply Hcreated. reflexivity.
Defined.

Lemma chosen_port_has_its_service_witness :
  (∀ pod, V1Pod.portEntries (samePod pod) = V1Pod.portEntries pod)
  ∧ reachable samePod epoch twoPorts (withPort twoPorts 9090 [])
  ∧ manifest (withPort twoPorts 9090 []) = Some (loaded twoPorts)
  ∧ ∃ p, plan (vars (withPort twoPorts 9090 [])) (loaded twoPorts) = Returned p
       ∧ length (servicesToCreate p) = 2%nat
       ∧ ∀ error, ending p ≠ Fail error.
Proof.
  assert (H1 : ∀ pod, V1Pod.portEntries (samePod pod) = V1Pod.portEntries pod)
    by reflexivity.
  assert (H2 : reachable samePod epoch twoPorts (withPort twoPorts 9090 [])).
  { apply reachable_handle; [apply reachable_handle; [constructor|]|];
      vm_compute; reflexivity. }
  assert (H3 : manifest (withPort twoPorts 9090 []) = Some (loaded twoPorts))
    by (vm_compute; reflexivity).
  split_and!; [exact H1|exact H2|exact H3|].
  assert (∃ p, plan (vars (withPort twoPorts 9090 [])) (loaded twoPorts)
               = Returned p
               ∧ length (servicesToCreate p) = 2%nat) as (p & Hp & Hlength).
  { eexists. split; [vm_compute; reflexivity|reflexivity]. }
  exists p. split_and!; [exact Hp|exact Hlength|].
  exact (chosen_port_has_its_service samePod epoch twoPorts
           (withPort twoPorts 9090 []) (loaded twoPorts) p H1 H2 H3 Hp).
Defined.

Lemma one_poller_at_most_witness :
  reachable samePod epoch web (deployed web [])
  ∧ size (timers (deployed web [])) = 1%nat
  ∧ (size (timers (deployed web [])) ≤ 1)%nat.
Proof.
  assert (H1 : reachable samePod epoch web (deployed web []))
    by (apply reachable_deployed; reflexivity).
  split_and!; [exact H1|vm_compute; reflexivity|].
  by destruct (one_poller_at_most samePod epoch web _ H1).
Defined.

